(** * rr recorder: signal interception and event classification

    A shallow embedding of [src/recorder/handle_signal.c] and the
    properties of its five routines: [is_deterministic_signal],
    [try_handle_rdtsc], [try_handle_shared_mmap_access], [record_signal]
    and [handle_signal].

    The C file is an orchestration of calls into the rest of the recorder
    (ptrace wrappers, the instruction decoder, the performance counters,
    the trace writer).  Those collaborators live in other translation
    units; here they are the fields of a record [Collab], and every
    theorem is stated for an arbitrary [Collab].  What the file itself
    does -- the branches, the arithmetic on the register snapshot, the
    stores into [struct context], the order of the calls -- is modelled
    statement by statement in a small state-and-abort monad. *)

From Stdlib Require Import ZArith List String Ascii Bool Lia.
Import ListNotations.
Local Open Scope Z_scope.

(** ** Machine integers of the i386 target *)

(** Conversion to a 32-bit two's-complement value, as gcc performs it
    when a wider or unsigned value is stored into an [int] or a
    [long int] on i386. *)
Definition wrap32 (z : Z) : Z := (z + 2 ^ 31) mod 2 ^ 32 - 2 ^ 31.

(** The 32 bits of a [long int] read as an address ([(void* )regs.esp]). *)
Definition ptr_of_long (z : Z) : Z := z mod 2 ^ 32.

(** ** Signal numbers of <signal.h> on Linux/x86 *)

Definition SIGILL : Z := 4.
Definition SIGTRAP : Z := 5.
Definition SIGBUS : Z := 7.
Definition SIGFPE : Z := 8.
Definition SIGSEGV : Z := 11.
Definition SIGSTKFLT : Z := 16.
Definition SIGIO : Z := 29.

(** The six signals the [switch] of [is_deterministic_signal] lists. *)
Definition synchronous_fault_class : list Z :=
  [SIGILL; SIGTRAP; SIGBUS; SIGFPE; SIGSEGV; SIGSTKFLT].

(** ** Data *)

(** [struct user_regs_struct] of <sys/user.h> for i386: seventeen
    [long int] fields, in declaration order. *)
Record user_regs_struct : Type := mkRegs {
  ebx : Z; ecx : Z; edx : Z; esi : Z; edi : Z; ebp : Z; eax : Z;
  xds : Z; xes : Z; xfs : Z; xgs : Z; orig_eax : Z;
  eip : Z; xcs : Z; eflags : Z; esp : Z; xss : Z
}.

Definition set_eax (v : Z) (r : user_regs_struct) : user_regs_struct :=
  mkRegs (ebx r) (ecx r) (edx r) (esi r) (edi r) (ebp r) v
         (xds r) (xes r) (xfs r) (xgs r) (orig_eax r)
         (eip r) (xcs r) (eflags r) (esp r) (xss r).

Definition set_edx (v : Z) (r : user_regs_struct) : user_regs_struct :=
  mkRegs (ebx r) (ecx r) v (esi r) (edi r) (ebp r) (eax r)
         (xds r) (xes r) (xfs r) (xgs r) (orig_eax r)
         (eip r) (xcs r) (eflags r) (esp r) (xss r).

Definition set_eip (v : Z) (r : user_regs_struct) : user_regs_struct :=
  mkRegs (ebx r) (ecx r) (edx r) (esi r) (edi r) (ebp r) (eax r)
         (xds r) (xes r) (xfs r) (xgs r) (orig_eax r)
         v (xcs r) (eflags r) (esp r) (xss r).

(** The fields of [siginfo_t] this file reads. *)
Record siginfo_t : Type := mkSiginfo {
  si_signo : Z;
  si_code : Z;
  si_addr : Z
}.

(** The fields of [struct context] this file reads or writes.  The
    counters behind [ctx->hpc] are a component of the world below. *)
Record context : Type := mkContext {
  child_tid : Z;
  status : Z;
  child_sig : Z;
  event : Z;
  child_regs : user_regs_struct
}.

Definition set_status (v : Z) (c : context) : context :=
  mkContext (child_tid c) v (child_sig c) (event c) (child_regs c).
Definition set_child_sig (v : Z) (c : context) : context :=
  mkContext (child_tid c) (status c) v (event c) (child_regs c).
Definition set_event (v : Z) (c : context) : context :=
  mkContext (child_tid c) (status c) (child_sig c) v (child_regs c).
Definition set_child_regs (r : user_regs_struct) (c : context) : context :=
  mkContext (child_tid c) (status c) (child_sig c) (event c) r.

(** The stopped tracee as ptrace shows it: its register file, its
    memory, the [siginfo_t] of its current stop and the wait status the
    next [waitpid] reports. *)
Record Tracee : Type := mkTracee {
  regs : user_regs_struct;
  mem : Z -> Z;
  siginfo : siginfo_t;
  wstatus : Z
}.

Definition set_regs (r : user_regs_struct) (t : Tracee) : Tracee :=
  mkTracee r (mem t) (siginfo t) (wstatus t).

(** The performance counters behind [ctx->hpc]: retired instructions
    and retired branches since the last reset. *)
Record hpc_context : Type := mkHpc {
  hpc_insts : Z;
  hpc_rbc : Z
}.

(** One entry per call that leaves this file and per store into the two
    output fields of the context.  The history is the device by which
    the order of operations, and the absence of an operation, are
    stated. *)
Inductive effect : Type :=
| E_get_inst
| E_rdtsc
| E_read_child_registers
| E_write_child_registers (r : user_regs_struct)
| E_sys_free
| E_getsiginfo
| E_is_protected_map (addr : Z)
| E_is_write_mem_instruction
| E_emulate_child_inst
| E_record_event (ev state : Z)
| E_reset_hpc (budget : Z)
| E_read_insts
| E_read_rbc
| E_singlestep_sig (sig : Z)
| E_waitpid
| E_record_child_data (ev len addr : Z)
| E_store_event (v : Z)
| E_store_child_sig (v : Z).

(** Everything a call of this file can observe or change.  [history]
    lists the effects most recent first; [tsc_reads] counts the samples
    taken from the host's timestamp counter. *)
Record World : Type := mkWorld {
  ctx : context;
  tracee : Tracee;
  hpc : hpc_context;
  tsc_reads : nat;
  history : list effect
}.

Definition set_ctx (c : context) (w : World) : World :=
  mkWorld c (tracee w) (hpc w) (tsc_reads w) (history w).
Definition set_tracee (t : Tracee) (w : World) : World :=
  mkWorld (ctx w) t (hpc w) (tsc_reads w) (history w).
Definition set_hpc (h : hpc_context) (w : World) : World :=
  mkWorld (ctx w) (tracee w) h (tsc_reads w) (history w).
Definition log (e : effect) (w : World) : World :=
  mkWorld (ctx w) (tracee w) (hpc w) (tsc_reads w) (e :: history w).

(** ** The collaborators *)

(** The constants, macros and functions of the recorder that this file
    uses and other files define.  Each function is given the part of the
    world its interface lets it read, and returns the part it may
    change.  The values of the event tags are those of a header that is
    not part of this file; a theorem that needs the two mapping tags to
    be nonzero, as the value a handler returns for "handled" must be,
    says so. *)
Record Collab : Type := mkCollab {
  (** event tags and limits of the project's headers *)
  SIG_SEGV_RDTSC : Z;
  SIG_SEGV_MMAP_READ : Z;
  SIG_SEGV_MMAP_WRITE : Z;
  USR_SCHED : Z;
  DET_SIGNAL_BIT : Z;
  MAX_RECORD_INTERVAL : Z;
  STATE_SYSCALL_ENTRY : Z;
  (** [signal_pending(status)]: the signal a wait status carries *)
  signal_pending : Z -> Z;
  (** [get_inst(tid, 0, &size)]: text and byte length of the
      instruction at the tracee's instruction pointer *)
  get_inst : Tracee -> string * Z;
  (** [is_write_mem_instruction(tid, 0, &size)] *)
  is_write_mem_instruction : Tracee -> bool * Z;
  (** [is_protected_map(ctx, addr)] *)
  is_protected_map : context -> Z -> bool;
  (** [emulate_child_inst(ctx, 0)]: runs the faulting instruction
      against the tracee's registers and memory *)
  emulate_child_inst : context -> Tracee -> Tracee;
  (** the host's timestamp counter at its n-th reading *)
  host_tsc : nat -> Z;
  (** what one [PTRACE_SINGLESTEP] delivering [sig] does to the tracee
      and to the counters by the time the tracee has stopped again *)
  singlestep : Z -> Tracee -> hpc_context -> Tracee * hpc_context;
  (** what [reset_hpc(ctx, budget)] does to the counters *)
  reset_hpc : context -> Z -> hpc_context -> hpc_context;
  (** what [record_event(ctx, state)] does to the counters *)
  record_event_hpc : context -> Z -> hpc_context -> hpc_context;
  (** the macro [WRAP_SYSCALLS_CALLSITE_IN_WRAPPER(eip, ctx)] *)
  WRAP_SYSCALLS_CALLSITE_IN_WRAPPER : Z -> context -> bool
}.

(** ** The monad: state, assertion failure, and running out of steps *)

Inductive result (A : Type) : Type :=
| Returns (a : A) (w : World)
| AssertionFailed (w : World)
| OutOfFuel.
Arguments Returns {A} a w.
Arguments AssertionFailed {A} w.
Arguments OutOfFuel {A}.

Definition M (A : Type) : Type := World -> result A.

Definition ret {A : Type} (a : A) : M A := fun w => Returns a w.

Definition bind {A B : Type} (m : M A) (k : A -> M B) : M B :=
  fun w =>
    match m w with
    | Returns a w' => k a w'
    | AssertionFailed w' => AssertionFailed w'
    | OutOfFuel => OutOfFuel
    end.

Notation "x <- m ;; k" := (bind m (fun x => k))
  (at level 61, m at next level, right associativity).
Notation "m ;; k" := (bind m (fun _ => k))
  (at level 61, right associativity).

(** [assert(b)] of <assert.h>. *)
Definition assert (b : bool) : M unit :=
  fun w => if b then Returns tt w else AssertionFailed w.

Definition call (e : effect) : M unit := fun w => Returns tt (log e w).

Definition load {A : Type} (f : context -> A) : M A :=
  fun w => Returns (f (ctx w)) w.

(** [ctx->event = v] and [ctx->child_sig = v]. *)
Definition store_event (v : Z) : M unit :=
  fun w => Returns tt (log (E_store_event v) (set_ctx (set_event v (ctx w)) w)).
Definition store_child_sig (v : Z) : M unit :=
  fun w =>
    Returns tt (log (E_store_child_sig v) (set_ctx (set_child_sig v (ctx w)) w)).

(** ** <string.h> *)

Definition uchar (c : ascii) : Z := Z.of_N (N_of_ascii c).

(** [strncmp(s1, s2, n)]: the difference of the first pair of bytes that
    differ among the first [n], read as [unsigned char]; a string ends
    at its end or at its first NUL. *)
Fixpoint strncmp (s1 s2 : string) (n : nat) {struct n} : Z :=
  match n with
  | O => 0
  | S n' =>
      let c1 := match s1 with EmptyString => 0 | String c _ => uchar c end in
      let c2 := match s2 with EmptyString => 0 | String c _ => uchar c end in
      if negb (c1 =? c2) then c1 - c2
      else if c1 =? 0 then 0
      else
        match s1, s2 with
        | String _ t1, String _ t2 => strncmp t1 t2 n'
        | _, _ => 0
        end
  end.

(** ** The code *)

Section Code.

Variable E : Collab.

(** Modelled from the spec: the ptrace wrappers, the decoder, the
    counter and trace-log routines are declared in headers outside this
    file ([share/sys.h], [share/util.h], [share/hpc.h], [share/trace.h],
    [share/ipc.h]).  Each acts on the one tracee [ctx->child_tid] names,
    touches the part of the world the interface description gives it,
    and leaves its mark in the history.  [debug] and [log_info] only
    print and are left out. *)

Definition sys_get_inst : M (string * Z) :=
  fun w => Returns (get_inst E (tracee w)) (log E_get_inst w).

(** [rdtsc()]: the instruction leaves the counter's low word in [lo] and
    its high word in [hi], both [unsigned]; the function returns
    [lo | hi << 32] as an [unsigned long long]. *)
Definition rdtsc : M Z :=
  fun w =>
    let t := host_tsc E (tsc_reads w) in
    let lo := Z.land t 0xffffffff in
    let hi := Z.land (Z.shiftr t 32) 0xffffffff in
    Returns (Z.lor lo (Z.shiftl hi 32))
            (log E_rdtsc
               (mkWorld (ctx w) (tracee w) (hpc w) (S (tsc_reads w)) (history w))).

Definition read_child_registers : M user_regs_struct :=
  fun w => Returns (regs (tracee w)) (log E_read_child_registers w).

Definition write_child_registers (r : user_regs_struct) : M unit :=
  fun w =>
    Returns tt (log (E_write_child_registers r)
                    (set_tracee (set_regs r (tracee w)) w)).

Definition sys_ptrace_getsiginfo : M siginfo_t :=
  fun w => Returns (siginfo (tracee w)) (log E_getsiginfo w).

Definition sys_is_protected_map (addr : Z) : M bool :=
  fun w => Returns (is_protected_map E (ctx w) addr)
                   (log (E_is_protected_map addr) w).

Definition sys_is_write_mem_instruction : M (bool * Z) :=
  fun w => Returns (is_write_mem_instruction E (tracee w))
                   (log E_is_write_mem_instruction w).

Definition sys_emulate_child_inst : M unit :=
  fun w =>
    Returns tt (log E_emulate_child_inst
                    (set_tracee (emulate_child_inst E (ctx w) (tracee w)) w)).

Definition record_event (state : Z) : M unit :=
  fun w =>
    Returns tt (log (E_record_event (event (ctx w)) state)
                    (set_hpc (record_event_hpc E (ctx w) state (hpc w)) w)).

Definition sys_reset_hpc (budget : Z) : M unit :=
  fun w =>
    Returns tt (log (E_reset_hpc budget)
                    (set_hpc (reset_hpc E (ctx w) budget (hpc w)) w)).

(** [read_insts(ctx->hpc)]: the count as the counter delivers it, in a
    type that may be wider than [int]; a caller that keeps it in an
    [int] converts it. *)
Definition read_insts : M Z :=
  fun w => Returns (hpc_insts (hpc w)) (log E_read_insts w).

Definition read_rbc : M Z :=
  fun w => Returns (hpc_rbc (hpc w)) (log E_read_rbc w).

Definition sys_ptrace_singlestep_sig (sig : Z) : M unit :=
  fun w =>
    let '(t, h) := singlestep E sig (tracee w) (hpc w) in
    Returns tt (log (E_singlestep_sig sig) (set_hpc h (set_tracee t w))).

(** [sys_waitpid(ctx->child_tid, &ctx->status)]. *)
Definition sys_waitpid : M unit :=
  fun w =>
    Returns tt (log E_waitpid
                    (set_ctx (set_status (wstatus (tracee w)) (ctx w)) w)).

Definition record_child_data (ev len addr : Z) : M unit :=
  call (E_record_child_data ev len addr).

(** [try_handle_rdtsc], lines 36-73. *)
Definition try_handle_rdtsc : M Z :=
  st <- load status ;;
  let sig := signal_pending E st in
  assert (negb (sig =? SIGTRAP)) ;;
  if (sig <=? 0) || negb (sig =? SIGSEGV) then ret 0
  else
    p <- sys_get_inst ;;
    let '(inst, size) := p in
    retval <-
      (if strncmp inst "rdtsc" 5 =? 0 then
         current_time <- rdtsc ;;
         let eax' := wrap32 (Z.land current_time 0xffffffff) in
         let edx' := wrap32 (Z.shiftr current_time 32) in
         r <- read_child_registers ;;
         let r := set_eax eax' r in
         let r := set_edx edx' r in
         let r := set_eip (wrap32 (eip r + size)) r in
         write_child_registers r ;;
         store_event (SIG_SEGV_RDTSC E) ;;
         ret 1
       else ret 0) ;;
    call E_sys_free ;;
    ret retval.

(** [try_handle_shared_mmap_access], lines 80-128. *)
Definition try_handle_shared_mmap_access : M Z :=
  st <- load status ;;
  let sig := signal_pending E st in
  assert (negb (sig =? SIGTRAP)) ;;
  if (sig <=? 0) || negb (sig =? SIGSEGV) then ret 0
  else
    si <- sys_ptrace_getsiginfo ;;
    let addr := si_addr si in
    prot <- sys_is_protected_map addr ;;
    if negb prot then ret 0
    else
      p <- sys_is_write_mem_instruction ;;
      let '(is_write, size) := p in
      store_event (if is_write : bool
                   then SIG_SEGV_MMAP_WRITE E else SIG_SEGV_MMAP_READ E) ;;
      sys_emulate_child_inst ;;
      load event.

(** [is_deterministic_signal], lines 130-157.  The result is the [int]
    of the C comparison. *)
Definition is_deterministic_signal (si : siginfo_t) : Z :=
  let s := si_signo si in
  if (s =? SIGILL) || (s =? SIGTRAP) || (s =? SIGBUS)
     || (s =? SIGFPE) || (s =? SIGSEGV) || (s =? SIGSTKFLT)
  then (if si_code si >? 0 then 1 else 0)
  else 0.

(** [record_signal], lines 159-191. *)
Definition record_signal (sig : Z) : M unit :=
  if sig <=? 0 then ret tt
  else
    store_child_sig sig ;;
    si <- sys_ptrace_getsiginfo ;;
    (if negb (is_deterministic_signal si =? 0)
     then store_event (wrap32 (- Z.lor sig (DET_SIGNAL_BIT E)))
     else store_event (wrap32 (- sig))) ;;
    record_event (STATE_SYSCALL_ENTRY E) ;;
    sys_reset_hpc (MAX_RECORD_INTERVAL E) ;;
    n <- read_insts ;;
    assert (n =? 0) ;;
    sys_ptrace_singlestep_sig sig ;;
    sys_waitpid ;;
    count <- read_insts ;;
    let insts := wrap32 count in
    let frame_size := if insts =? 0 then 1024 else 0 in
    r <- read_child_registers ;;
    ev <- load event ;;
    record_child_data ev frame_size (ptr_of_long (esp r)).

(** The body of the [while] of [handle_signal], lines 203-205. *)
Definition delay_delivery : M unit :=
  sys_ptrace_singlestep_sig 0 ;;
  sys_waitpid ;;
  r <- read_child_registers ;;
  fun w => Returns tt (set_ctx (set_child_regs r (ctx w)) w).

(** The [while] of [handle_signal], lines 200-206: [fuel] bounds the
    number of iterations the model follows. *)
Fixpoint while_in_wrapper (fuel : nat) : M unit :=
  fun w =>
    if WRAP_SYSCALLS_CALLSITE_IN_WRAPPER E (eip (child_regs (ctx w))) (ctx w)
    then
      match fuel with
      | O => OutOfFuel
      | S fuel' => (delay_delivery ;; while_in_wrapper fuel') w
      end
    else Returns tt w.

(** The [switch] of [handle_signal], lines 210-232: [true] when one of
    its three [return]s is taken, [false] when control leaves the
    [switch] towards [record_signal]. *)
Definition handle_signal_switch (sig : Z) : M bool :=
  if sig =? SIGSEGV then
    handled <- try_handle_rdtsc ;;
    if negb (handled =? 0) then
      store_event (SIG_SEGV_RDTSC E) ;;
      store_child_sig 0 ;;
      ret true
    else
      mmap_event <- try_handle_shared_mmap_access ;;
      if negb (mmap_event =? 0) then
        store_event mmap_event ;;
        store_child_sig 0 ;;
        ret true
      else ret false
  else if sig =? SIGIO then
    rbc <- read_rbc ;;
    if rbc >=? MAX_RECORD_INTERVAL E then
      store_event (USR_SCHED E) ;;
      store_child_sig 0 ;;
      ret true
    else ret false
  else ret false.

(** [handle_signal], lines 193-237. *)
Definition handle_signal (fuel : nat) : M unit :=
  st <- load status ;;
  let sig := signal_pending E st in
  while_in_wrapper fuel ;;
  returned <- handle_signal_switch sig ;;
  if returned : bool then ret tt else record_signal sig.

End Code.

(** ** Quantities the statements name *)

(** The register snapshot [try_handle_rdtsc] writes back when the host
    counter reads [t] and the decoded instruction is [L] bytes long. *)
Definition rdtsc_emulated (t L : Z) (r : user_regs_struct) : user_regs_struct :=
  set_eip (wrap32 (eip r + L))
    (set_edx (wrap32 ((t mod 2 ^ 64) / 2 ^ 32))
       (set_eax (wrap32 (t mod 2 ^ 32)) r)).

(** The tag [record_signal] gives to signal [sig] with fault info [si]. *)
Definition signal_event (E : Collab) (sig : Z) (si : siginfo_t) : Z :=
  if is_deterministic_signal si =? 0
  then wrap32 (- sig)
  else wrap32 (- Z.lor sig (DET_SIGNAL_BIT E)).

(** The tag of a trapped access to a protected mapping. *)
Definition mmap_event_of (E : Collab) (is_write : bool) : Z :=
  if is_write then SIG_SEGV_MMAP_WRITE E else SIG_SEGV_MMAP_READ E.

(** The context once [record_signal] has stored the signal and its tag,
    and the counters once the event is logged and the window reset. *)
Definition tagged_ctx (E : Collab) (sig : Z) (w : World) : context :=
  set_event (signal_event E sig (siginfo (tracee w)))
            (set_child_sig sig (ctx w)).

Definition reset_counters (E : Collab) (sig : Z) (w : World) : hpc_context :=
  reset_hpc E (tagged_ctx E sig w) (MAX_RECORD_INTERVAL E)
    (record_event_hpc E (tagged_ctx E sig w) (STATE_SYSCALL_ENTRY E) (hpc w)).

(** The frame size [record_signal] settles on when its [int insts]
    holds [insts] after the step into the handler. *)
Definition frame_size_of (insts : Z) : Z := if insts =? 0 then 1024 else 0.

(** The loop condition of [handle_signal] at a world. *)
Definition in_wrapper (E : Collab) (w : World) : bool :=
  WRAP_SYSCALLS_CALLSITE_IN_WRAPPER E (eip (child_regs (ctx w))) (ctx w).

(** The world one iteration of the loop of [handle_signal] leaves. *)
Definition delayed (E : Collab) (w : World) : World :=
  let stepped := singlestep E 0 (tracee w) (hpc w) in
  mkWorld (set_child_regs (regs (fst stepped))
             (set_status (wstatus (fst stepped)) (ctx w)))
          (fst stepped) (snd stepped) (tsc_reads w)
          (E_read_child_registers :: E_waitpid :: E_singlestep_sig 0
           :: history w).

(** The effects of [n] iterations of that loop, most recent first. *)
Definition delay_effects (n : nat) : list effect :=
  List.concat (repeat [E_read_child_registers; E_waitpid; E_singlestep_sig 0] n).

(** The values stored into [ctx->event] along a history. *)
Fixpoint event_stores (h : list effect) : list Z :=
  match h with
  | [] => []
  | E_store_event v :: t => v :: event_stores t
  | _ :: t => event_stores t
  end.

(** [w'] is reached from [w] by effects whose stores into [ctx->event]
    are [stores], most recent first. *)
Definition extends (w w' : World) (stores : list Z) : Prop :=
  exists d, history w' = d ++ history w /\ event_stores d = stores.

Arguments wrap32 : simpl never.
Arguments ptr_of_long : simpl never.
Arguments strncmp : simpl never.

(** ** Sample configurations

    Concrete collaborators on which the theorems below are exercised.
    The decoder reads the instruction [text] of [len] bytes at every
    address; wrapper code is where [wrapper] holds of the instruction
    pointer; the host counter reads [0x100000002]; one page at [0x5000]
    is protected; a single step moves the instruction pointer one byte
    on, and retires one instruction unless it enters a signal handler
    (SIGIO is ignored by the tracee, every other signal is handled). *)

Module Sample.

Definition regs0 : user_regs_struct :=
  mkRegs 0 0 0 0 0 0 0 0 0 0 0 0 0x8048000 0 0 0x7fff0000 0.

Definition config (text : string) (len : Z) (wrapper : Z -> bool) : Collab := {|
  SIG_SEGV_RDTSC := -128;
  SIG_SEGV_MMAP_READ := -126;
  SIG_SEGV_MMAP_WRITE := -127;
  USR_SCHED := -130;
  DET_SIGNAL_BIT := 0x80;
  MAX_RECORD_INTERVAL := 10000;
  STATE_SYSCALL_ENTRY := 0;
  signal_pending := fun st => Z.land (Z.shiftr st 8) 0xff;
  get_inst := fun _ => (text, len);
  is_write_mem_instruction := fun _ => (true, len);
  is_protected_map := fun _ a => (0x5000 <=? a) && (a <? 0x5000 + 4096);
  emulate_child_inst :=
    fun _ t => set_regs (set_eip (wrap32 (eip (regs t) + len)) (regs t)) t;
  host_tsc := fun _ => 0x100000002;
  singlestep :=
    fun sig t h =>
      (set_regs (set_eip (wrap32 (eip (regs t) + 1)) (regs t)) t,
       mkHpc (if (sig =? 0) || (sig =? SIGIO)
              then hpc_insts h + 1 else hpc_insts h)
             (hpc_rbc h));
  reset_hpc := fun _ _ h => mkHpc 0 0;
  record_event_hpc := fun _ _ h => h;
  WRAP_SYSCALLS_CALLSITE_IN_WRAPPER := fun ip _ => wrapper ip
|}.

(** A faulting [rdtsc] outside wrapper code. *)
Definition collab : Collab := config "rdtsc" 2 (fun _ => false).

(** A faulting store outside wrapper code. *)
Definition store : Collab := config "mov" 3 (fun _ => false).

(** Wrapper code three bytes long, starting where the tracee stands. *)
Definition wrapped : Collab := config "mov" 3 (fun ip => ip <? 0x8048003).

(** A tracee that never leaves wrapper code. *)
Definition spinning : Collab := config "mov" 3 (fun _ => true).

(** Wait statuses of a stop with SIGSEGV, SIGTRAP, SIGIO, SIGILL and of
    a stop that carries no signal. *)
Definition segv_status : Z := 0xb7f.
Definition trap_status : Z := 0x57f.
Definition io_status : Z := 0x1d7f.
Definition ill_status : Z := 0x47f.
Definition no_signal_status : Z := 0.

(** The tracee stopped with wait status [st], the kernel reporting
    origin code [code] and fault address [addr], the branch counter
    at [rbc]. *)
Definition stopped_at (st code addr rbc : Z) : World :=
  mkWorld (mkContext 1 st 0 0 regs0)
          (mkTracee regs0 (fun _ => 0)
                    (mkSiginfo (Z.land (Z.shiftr st 8) 0xff) code addr) st)
          (mkHpc 0 rbc) 0 [].

Definition stopped (st code addr : Z) : World := stopped_at st code addr 0.

(** The world [handle_signal] returns at, for stating facts about it. *)
Definition outcome (E : Collab) (fuel : nat) (w : World) : World :=
  match handle_signal E fuel w with
  | Returns _ w' => w'
  | _ => w
  end.

End Sample.

(** ** Further quantities and configurations *)

(** The three actions by which [handle_signal] resolves a stop: sampling
    the host counter, emulating the faulting access, logging a signal
    event.  [marks] keeps those entries of a history. *)
Definition is_mark (e : effect) : bool :=
  match e with
  | E_rdtsc | E_emulate_child_inst | E_record_event _ _ => true
  | _ => false
  end.

Definition marks (h : list effect) : list effect := filter is_mark h.

(** [w'] is reached from [w] by effects whose marks are [m]. *)
Definition marked (w w' : World) (m : list effect) : Prop :=
  exists d, history w' = d ++ history w /\ marks d = m.

Module Probe.

(** [E] with another account of what a single step does. *)
Definition with_singlestep
    (f : Z -> Tracee -> hpc_context -> Tracee * hpc_context) (E : Collab)
  : Collab :=
  mkCollab (SIG_SEGV_RDTSC E) (SIG_SEGV_MMAP_READ E) (SIG_SEGV_MMAP_WRITE E)
           (USR_SCHED E) (DET_SIGNAL_BIT E) (MAX_RECORD_INTERVAL E)
           (STATE_SYSCALL_ENTRY E) (signal_pending E) (get_inst E)
           (is_write_mem_instruction E) (is_protected_map E)
           (emulate_child_inst E) (host_tsc E) f (reset_hpc E)
           (record_event_hpc E) (WRAP_SYSCALLS_CALLSITE_IN_WRAPPER E).

(** [E] with another account of what [reset_hpc] does. *)
Definition with_reset_hpc
    (f : context -> Z -> hpc_context -> hpc_context) (E : Collab) : Collab :=
  mkCollab (SIG_SEGV_RDTSC E) (SIG_SEGV_MMAP_READ E) (SIG_SEGV_MMAP_WRITE E)
           (USR_SCHED E) (DET_SIGNAL_BIT E) (MAX_RECORD_INTERVAL E)
           (STATE_SYSCALL_ENTRY E) (signal_pending E) (get_inst E)
           (is_write_mem_instruction E) (is_protected_map E)
           (emulate_child_inst E) (host_tsc E) (singlestep E) f
           (record_event_hpc E) (WRAP_SYSCALLS_CALLSITE_IN_WRAPPER E).

(** Three bytes of wrapper code, and single steps after which the
    tracee reports wait status [st]. *)
Definition stepping_to (st : Z) : Collab :=
  with_singlestep
    (fun _ t h =>
       (mkTracee (set_eip (wrap32 (eip (regs t) + 1)) (regs t))
                 (mem t) (siginfo t) st,
        mkHpc (hpc_insts h + 1) (hpc_rbc h)))
    Sample.wrapped.

(** A counter reset that leaves the counters as they are. *)
Definition lazy_reset : Collab :=
  with_reset_hpc (fun _ _ h => h) Sample.collab.


(** A decoder that reads [rdtscp]. *)
Definition rdtscp : Collab := Sample.config "rdtscp" 3 (fun _ => false).

(** A stop with five instructions already on the counter. *)
Definition counting (st code addr : Z) : World :=
  mkWorld (mkContext 1 st 0 0 Sample.regs0)
          (mkTracee Sample.regs0 (fun _ => 0)
                    (mkSiginfo (Z.land (Z.shiftr st 8) 0xff) code addr) st)
          (mkHpc 5 0) 0 [].

End Probe.

(** ** Proof steps

    [run] unfolds the routines and the monad down to the collaborators;
    [sigs] decides the comparisons of SIGSEGV the two handlers make. *)

Ltac run :=
  cbv beta iota zeta delta
    [handle_signal handle_signal_switch record_signal
     try_handle_rdtsc try_handle_shared_mmap_access
     delay_delivery bind ret assert call load store_event store_child_sig
     sys_get_inst rdtsc read_child_registers write_child_registers
     sys_ptrace_getsiginfo sys_is_protected_map sys_is_write_mem_instruction
     sys_emulate_child_inst record_event sys_reset_hpc read_insts read_rbc
     sys_ptrace_singlestep_sig sys_waitpid record_child_data].

Ltac sigs :=
  change (SIGSEGV =? SIGTRAP) with false;
  change (SIGSEGV <=? 0) with false;
  change (SIGSEGV =? SIGSEGV) with true;
  cbv beta iota delta [negb orb].

(** * Properties *)


(** ** Arithmetic of the register snapshot *)

Lemma ptr_of_long_wrap32 (z : Z) : ptr_of_long (wrap32 z) = z mod 2 ^ 32.
Proof.
  unfold ptr_of_long, wrap32.
  rewrite Zminus_mod_idemp_l. f_equal. lia.
Qed.

Lemma wrap32_small (z : Z) : - 2 ^ 31 <= z < 2 ^ 31 -> wrap32 z = z.
Proof.
  intros H. unfold wrap32. rewrite Z.mod_small; lia.
Qed.

Lemma land_low32 (t : Z) : Z.land t 0xffffffff = t mod 2 ^ 32.
Proof. change 0xffffffff with (Z.ones 32). apply Z.land_ones. lia. Qed.

(** [rdtsc()] glues the two words the instruction delivers back into
    the 64-bit counter. *)
Lemma rdtsc_value (t : Z) :
  Z.lor (Z.land t 0xffffffff) (Z.shiftl (Z.land (Z.shiftr t 32) 0xffffffff) 32)
  = t mod 2 ^ 64.
Proof.
  apply Z.bits_inj'. intros n Hn.
  rewrite Z.lor_spec.
  change 0xffffffff with (Z.ones 32).
  rewrite Z.land_spec.
  rewrite (Z.testbit_ones_nonneg 32 n) by lia.
  destruct (Z.ltb_spec n 32).
  - rewrite Z.shiftl_spec_low by lia.
    rewrite Z.mod_pow2_bits_low by lia.
    rewrite andb_true_r, orb_false_r. reflexivity.
  - rewrite Z.shiftl_spec_high by lia.
    rewrite Z.land_spec, Z.shiftr_spec by lia.
    rewrite Z.testbit_ones_nonneg by lia.
    replace (n - 32 + 32) with n by lia.
    rewrite andb_false_r, orb_false_l.
    destruct (Z.ltb_spec (n - 32) 32).
    + rewrite Z.mod_pow2_bits_low by lia. apply andb_true_r.
    + rewrite Z.mod_pow2_bits_high by lia. apply andb_false_r.
Qed.

Lemma low_word_of_counter (t : Z) :
  Z.land (t mod 2 ^ 64) 0xffffffff = t mod 2 ^ 32.
Proof.
  rewrite land_low32.
  apply Z.mod_mod_divide.
  exists (2 ^ 32). reflexivity.
Qed.

Lemma high_word_of_counter (t : Z) :
  Z.shiftr (t mod 2 ^ 64) 32 = (t mod 2 ^ 64) / 2 ^ 32.
Proof. apply Z.shiftr_div_pow2. lia. Qed.

Lemma high_word_range (t : Z) : 0 <= (t mod 2 ^ 64) / 2 ^ 32 < 2 ^ 32.
Proof.
  assert (0 <= t mod 2 ^ 64 < 2 ^ 64) by (apply Z.mod_pos_bound; lia).
  split.
  - apply Z.div_pos; lia.
  - apply Z.div_lt_upper_bound; lia.
Qed.

(** ** <string.h>: what the comparison with the mnemonic accepts *)

Lemma strncmp_rdtsc_prefix (rest : string) :
  strncmp ("rdtsc" ++ rest) "rdtsc" 5 = 0.
Proof. reflexivity. Qed.

(** ** Equations of the routines, one per path *)

Section Routines.

Variable E : Collab.

Lemma try_handle_rdtsc_not_segv (w : World) :
  signal_pending E (status (ctx w)) <> SIGTRAP ->
  signal_pending E (status (ctx w)) <> SIGSEGV ->
  try_handle_rdtsc E w = Returns 0 w.
Proof.
  intros Ht Hs. run.
  apply Z.eqb_neq in Ht, Hs. rewrite Ht, Hs. cbn [negb].
  rewrite orb_true_r. reflexivity.
Qed.

Lemma try_handle_rdtsc_sigtrap (w : World) :
  signal_pending E (status (ctx w)) = SIGTRAP ->
  try_handle_rdtsc E w = AssertionFailed w.
Proof. intros Ht. run. rewrite Ht. reflexivity. Qed.

Lemma try_handle_rdtsc_hit (w : World) (inst : string) (L : Z) :
  signal_pending E (status (ctx w)) = SIGSEGV ->
  get_inst E (tracee w) = (inst, L) ->
  strncmp inst "rdtsc" 5 = 0 ->
  let r' := rdtsc_emulated (host_tsc E (tsc_reads w)) L (regs (tracee w)) in
  try_handle_rdtsc E w =
  Returns 1
    (mkWorld (set_event (SIG_SEGV_RDTSC E) (ctx w))
             (set_regs r' (tracee w))
             (hpc w)
             (S (tsc_reads w))
             (E_sys_free :: E_store_event (SIG_SEGV_RDTSC E)
              :: E_write_child_registers r' :: E_read_child_registers
              :: E_rdtsc :: E_get_inst :: history w)).
Proof.
  intros Hs Hi Hc r'. run. rewrite Hs. sigs. rewrite Hi. run. rewrite Hc.
  change (0 =? 0) with true. run.
  cbn [log set_ctx set_tracee ctx tracee hpc tsc_reads history].
  rewrite rdtsc_value, low_word_of_counter, high_word_of_counter.
  reflexivity.
Qed.

Lemma try_handle_rdtsc_miss (w : World) (inst : string) (L : Z) :
  signal_pending E (status (ctx w)) = SIGSEGV ->
  get_inst E (tracee w) = (inst, L) ->
  strncmp inst "rdtsc" 5 <> 0 ->
  try_handle_rdtsc E w = Returns 0 (log E_sys_free (log E_get_inst w)).
Proof.
  intros Hs Hi Hc. run. rewrite Hs. sigs. rewrite Hi. run.
  apply Z.eqb_neq in Hc. rewrite Hc. reflexivity.
Qed.

Lemma try_handle_shared_mmap_access_not_segv (w : World) :
  signal_pending E (status (ctx w)) <> SIGTRAP ->
  signal_pending E (status (ctx w)) <> SIGSEGV ->
  try_handle_shared_mmap_access E w = Returns 0 w.
Proof.
  intros Ht Hs. run.
  apply Z.eqb_neq in Ht, Hs. rewrite Ht, Hs. cbn [negb].
  rewrite orb_true_r. reflexivity.
Qed.

Lemma try_handle_shared_mmap_access_sigtrap (w : World) :
  signal_pending E (status (ctx w)) = SIGTRAP ->
  try_handle_shared_mmap_access E w = AssertionFailed w.
Proof. intros Ht. run. rewrite Ht. reflexivity. Qed.

Lemma try_handle_shared_mmap_access_outside (w : World) :
  signal_pending E (status (ctx w)) = SIGSEGV ->
  is_protected_map E (ctx w) (si_addr (siginfo (tracee w))) = false ->
  try_handle_shared_mmap_access E w =
  Returns 0 (log (E_is_protected_map (si_addr (siginfo (tracee w))))
                 (log E_getsiginfo w)).
Proof.
  intros Hs Hp. run. rewrite Hs. sigs.
  cbn [log ctx tracee].
  rewrite Hp. reflexivity.
Qed.

Lemma try_handle_shared_mmap_access_inside (w : World) (is_write : bool) (L : Z) :
  signal_pending E (status (ctx w)) = SIGSEGV ->
  is_protected_map E (ctx w) (si_addr (siginfo (tracee w))) = true ->
  is_write_mem_instruction E (tracee w) = (is_write, L) ->
  let tag := mmap_event_of E is_write in
  try_handle_shared_mmap_access E w =
  Returns tag
    (mkWorld (set_event tag (ctx w))
             (emulate_child_inst E (set_event tag (ctx w)) (tracee w))
             (hpc w)
             (tsc_reads w)
             (E_emulate_child_inst :: E_store_event tag
              :: E_is_write_mem_instruction
              :: E_is_protected_map (si_addr (siginfo (tracee w)))
              :: E_getsiginfo :: history w)).
Proof.
  intros Hs Hp Hw tag. run. rewrite Hs. sigs.
  cbn [log ctx tracee].
  rewrite Hp. cbn [negb log ctx tracee]. rewrite Hw. reflexivity.
Qed.

Lemma record_signal_nonpositive (sig : Z) (w : World) :
  sig <= 0 -> record_signal E sig w = Returns tt w.
Proof.
  intros H. run. apply Z.leb_le in H. rewrite H. reflexivity.
Qed.

Lemma record_signal_assert_fails (sig : Z) (w : World) :
  0 < sig ->
  hpc_insts (reset_counters E sig w) <> 0 ->
  exists w', record_signal E sig w = AssertionFailed w'.
Proof.
  intros Hpos Hn. run.
  assert (Hle : (sig <=? 0) = false) by (apply Z.leb_gt; exact Hpos).
  rewrite Hle.
  cbn [log set_ctx set_hpc ctx tracee hpc tsc_reads history].
  unfold reset_counters, tagged_ctx, signal_event in Hn.
  destruct (is_deterministic_signal (siginfo (tracee w)) =? 0);
    cbn [negb log set_ctx set_hpc ctx tracee hpc tsc_reads history];
    apply Z.eqb_neq in Hn; rewrite Hn; eexists; reflexivity.
Qed.

Lemma record_signal_positive (sig : Z) (w : World) :
  0 < sig ->
  hpc_insts (reset_counters E sig w) = 0 ->
  let ev := signal_event E sig (siginfo (tracee w)) in
  let stepped := singlestep E sig (tracee w) (reset_counters E sig w) in
  record_signal E sig w =
  Returns tt
    (mkWorld (set_status (wstatus (fst stepped)) (tagged_ctx E sig w))
             (fst stepped)
             (snd stepped)
             (tsc_reads w)
             (E_record_child_data ev
                (frame_size_of (wrap32 (hpc_insts (snd stepped))))
                                  (ptr_of_long (esp (regs (fst stepped))))
              :: E_read_child_registers :: E_read_insts :: E_waitpid
              :: E_singlestep_sig sig :: E_read_insts
              :: E_reset_hpc (MAX_RECORD_INTERVAL E)
              :: E_record_event ev (STATE_SYSCALL_ENTRY E)
              :: E_store_event ev :: E_getsiginfo
              :: E_store_child_sig sig :: history w)).
Proof.
  intros Hpos Hz ev stepped. run.
  assert (Hle : (sig <=? 0) = false) by (apply Z.leb_gt; exact Hpos).
  rewrite Hle.
  cbn [log set_ctx set_hpc ctx tracee hpc tsc_reads history].
  unfold reset_counters, tagged_ctx, signal_event in *.
  subst ev stepped.
  destruct (is_deterministic_signal (siginfo (tracee w)) =? 0);
    cbn [negb log set_ctx set_hpc set_tracee
         ctx tracee hpc tsc_reads history];
    rewrite Hz; change (0 =? 0) with true; cbv beta iota;
    match goal with
    | |- context [singlestep E sig ?t ?h] =>
        rewrite (surjective_pairing (singlestep E sig t h))
    end; reflexivity.
Qed.

(** *** The loop of [handle_signal] *)

Lemma delay_delivery_eq (w : World) :
  delay_delivery E w = Returns tt (delayed E w).
Proof.
  run. cbn [log set_ctx set_hpc set_tracee ctx tracee hpc tsc_reads history].
  rewrite (surjective_pairing (singlestep E 0 (tracee w) (hpc w))).
  reflexivity.
Qed.

Lemma while_in_wrapper_outside (fuel : nat) (w : World) :
  in_wrapper E w = false -> while_in_wrapper E fuel w = Returns tt w.
Proof.
  unfold in_wrapper. intros H. destruct fuel; cbn [while_in_wrapper];
    rewrite H; reflexivity.
Qed.

Lemma while_in_wrapper_inside (fuel : nat) (w : World) :
  in_wrapper E w = true ->
  while_in_wrapper E (S fuel) w = while_in_wrapper E fuel (delayed E w).
Proof.
  unfold in_wrapper. intros H. cbn [while_in_wrapper]. rewrite H.
  unfold bind. rewrite delay_delivery_eq. reflexivity.
Qed.

Lemma while_in_wrapper_no_fuel (w : World) :
  in_wrapper E w = true -> while_in_wrapper E 0 w = OutOfFuel.
Proof.
  unfold in_wrapper. intros H. cbn [while_in_wrapper]. rewrite H. reflexivity.
Qed.

(** The loop runs as long as the instruction pointer stays inside. *)
Lemma while_in_wrapper_exits (n : nat) :
  forall (w : World) (fuel : nat),
    (forall k, (k < n)%nat -> in_wrapper E (Nat.iter k (delayed E) w) = true) ->
    in_wrapper E (Nat.iter n (delayed E) w) = false ->
    (n <= fuel)%nat ->
    while_in_wrapper E fuel w = Returns tt (Nat.iter n (delayed E) w).
Proof.
  induction n as [|n IH]; intros w fuel Hin Hout Hfuel.
  - apply while_in_wrapper_outside. exact Hout.
  - destruct fuel as [|fuel]; [lia|].
    rewrite while_in_wrapper_inside by (apply (Hin 0%nat); lia).
    rewrite Nat.iter_succ_r in *.
    apply IH.
    + intros k Hk. rewrite <- Nat.iter_succ_r. apply Hin. lia.
    + exact Hout.
    + lia.
Qed.

(** Conversely, a loop that ends has run some [n] iterations with the
    pointer inside and found it outside after the [n]-th. *)
Lemma while_in_wrapper_returns (fuel : nat) :
  forall (w w' : World),
    while_in_wrapper E fuel w = Returns tt w' ->
    exists n, (n <= fuel)%nat /\ w' = Nat.iter n (delayed E) w /\
              in_wrapper E w' = false /\
              forall k, (k < n)%nat ->
                        in_wrapper E (Nat.iter k (delayed E) w) = true.
Proof.
  induction fuel as [|fuel IH]; intros w w' H.
  - destruct (in_wrapper E w) eqn:Hw.
    + rewrite while_in_wrapper_no_fuel in H by exact Hw. discriminate.
    + rewrite while_in_wrapper_outside in H by exact Hw.
      injection H as <-. exists 0%nat. repeat split; auto; lia.
  - destruct (in_wrapper E w) eqn:Hw.
    + rewrite while_in_wrapper_inside in H by exact Hw.
      destruct (IH _ _ H) as (n & Hn & Heq & Hout & Hin).
      exists (S n). rewrite Nat.iter_succ_r. repeat split; auto; try lia.
      intros [|k] Hk; [exact Hw|].
      rewrite Nat.iter_succ_r. apply Hin. lia.
    + rewrite while_in_wrapper_outside in H by exact Hw.
      injection H as <-. exists 0%nat. repeat split; auto; lia.
Qed.

Lemma while_in_wrapper_stuck :
  (forall w, in_wrapper E w = true) ->
  forall (fuel : nat) (w : World), while_in_wrapper E fuel w = OutOfFuel.
Proof.
  intros Hall. induction fuel as [|fuel IH]; intros w.
  - apply while_in_wrapper_no_fuel, Hall.
  - rewrite while_in_wrapper_inside by apply Hall. apply IH.
Qed.

Lemma history_delayed (n : nat) (w : World) :
  history (Nat.iter n (delayed E) w) = delay_effects n ++ history w.
Proof.
  unfold delay_effects.
  induction n as [|n IH]; [reflexivity|].
  cbn [Nat.iter nat_rect repeat List.concat]. unfold Nat.iter in IH.
  cbn [delayed history]. rewrite IH. reflexivity.
Qed.

Lemma outputs_delayed (n : nat) (w : World) :
  event (ctx (Nat.iter n (delayed E) w)) = event (ctx w) /\
  child_sig (ctx (Nat.iter n (delayed E) w)) = child_sig (ctx w) /\
  tsc_reads (Nat.iter n (delayed E) w) = tsc_reads w.
Proof.
  induction n as [|n IH]; [auto|].
  cbn [Nat.iter nat_rect]. unfold Nat.iter in IH.
  cbn [delayed ctx tsc_reads set_child_regs set_status event child_sig].
  exact IH.
Qed.

(** *** What a returning routine has stored into [ctx->event] *)

Lemma extends_refl (w : World) : extends w w [].
Proof. exists []. split; reflexivity. Qed.

Lemma event_stores_app (d1 d2 : list effect) :
  event_stores (d1 ++ d2) = event_stores d1 ++ event_stores d2.
Proof.
  induction d1 as [|e d1 IH]; [reflexivity|].
  destruct e; cbn [app event_stores]; rewrite IH; reflexivity.
Qed.

Lemma extends_trans (w1 w2 w3 : World) (s1 s2 : list Z) :
  extends w1 w2 s1 -> extends w2 w3 s2 -> extends w1 w3 (s2 ++ s1).
Proof.
  intros (d1 & H1 & E1) (d2 & H2 & E2).
  exists (d2 ++ d1). split.
  - rewrite H2, H1. apply app_assoc.
  - rewrite event_stores_app, E1, E2. reflexivity.
Qed.

Lemma event_stores_delay_effects (n : nat) :
  event_stores (delay_effects n) = [].
Proof.
  unfold delay_effects. induction n as [|n IH]; [reflexivity|].
  cbn [repeat List.concat app event_stores]. exact IH.
Qed.

Lemma while_in_wrapper_spec (fuel : nat) (w w' : World) :
  while_in_wrapper E fuel w = Returns tt w' ->
  extends w w' [] /\ event (ctx w') = event (ctx w)
  /\ child_sig (ctx w') = child_sig (ctx w).
Proof.
  intros H. apply while_in_wrapper_returns in H.
  destruct H as (n & _ & -> & _ & _).
  destruct (outputs_delayed n w) as (He & Hc & _).
  split; [|split; assumption].
  exists (delay_effects n). split.
  - apply history_delayed.
  - apply event_stores_delay_effects.
Qed.

Lemma try_handle_rdtsc_spec (w w' : World) (r : Z) :
  try_handle_rdtsc E w = Returns r w' ->
  (r = 0 /\ extends w w' [] /\ ctx w' = ctx w)
  \/ (r = 1 /\ extends w w' [SIG_SEGV_RDTSC E]
      /\ ctx w' = set_event (SIG_SEGV_RDTSC E) (ctx w)).
Proof.
  intros H.
  destruct (Z.eq_dec (signal_pending E (status (ctx w))) SIGTRAP) as [Ht|Ht].
  { rewrite try_handle_rdtsc_sigtrap in H by exact Ht. discriminate. }
  destruct (Z.eq_dec (signal_pending E (status (ctx w))) SIGSEGV) as [Hs|Hs].
  - destruct (get_inst E (tracee w)) as [inst L] eqn:Hi.
    destruct (Z.eq_dec (strncmp inst "rdtsc" 5) 0) as [Hc|Hc].
    + rewrite (try_handle_rdtsc_hit w inst L Hs Hi Hc) in H.
      injection H as <- <-. right. repeat split.
      eexists [_; _; _; _; _; _]. split; reflexivity.
    + rewrite (try_handle_rdtsc_miss w inst L Hs Hi Hc) in H.
      injection H as <- <-. left. repeat split.
      exists [E_sys_free; E_get_inst]. split; reflexivity.
  - rewrite try_handle_rdtsc_not_segv in H by assumption.
    injection H as <- <-. left. repeat split. apply extends_refl.
Qed.

Lemma try_handle_shared_mmap_access_spec (w w' : World) (r : Z) :
  try_handle_shared_mmap_access E w = Returns r w' ->
  (r = 0 /\ extends w w' [] /\ ctx w' = ctx w)
  \/ (exists is_write, r = mmap_event_of E is_write)
     /\ extends w w' [r] /\ ctx w' = set_event r (ctx w).
Proof.
  intros H.
  destruct (Z.eq_dec (signal_pending E (status (ctx w))) SIGTRAP) as [Ht|Ht].
  { rewrite try_handle_shared_mmap_access_sigtrap in H by exact Ht.
    discriminate. }
  destruct (Z.eq_dec (signal_pending E (status (ctx w))) SIGSEGV) as [Hs|Hs].
  - destruct (is_protected_map E (ctx w) (si_addr (siginfo (tracee w))))
      eqn:Hp.
    + destruct (is_write_mem_instruction E (tracee w)) as [b L] eqn:Hw.
      rewrite (try_handle_shared_mmap_access_inside w b L Hs Hp Hw) in H.
      injection H as <- <-. right. repeat split.
      * exists b. reflexivity.
      * eexists [_; _; _; _; _]. split; reflexivity.
    + rewrite (try_handle_shared_mmap_access_outside w Hs Hp) in H.
      injection H as <- <-. left. repeat split.
      eexists [_; _]. split; reflexivity.
  - rewrite try_handle_shared_mmap_access_not_segv in H by assumption.
    injection H as <- <-. left. repeat split. apply extends_refl.
Qed.

Lemma record_signal_spec (sig : Z) (w w' : World) :
  0 < sig ->
  record_signal E sig w = Returns tt w' ->
  extends w w' [signal_event E sig (siginfo (tracee w))]
  /\ event (ctx w') = signal_event E sig (siginfo (tracee w))
  /\ child_sig (ctx w') = sig.
Proof.
  intros Hpos H.
  destruct (Z.eq_dec (hpc_insts (reset_counters E sig w)) 0) as [Hz|Hz].
  - rewrite (record_signal_positive sig w Hpos Hz) in H.
    injection H as <-. repeat split.
    eexists [_; _; _; _; _; _; _; _; _; _; _]. split; reflexivity.
  - destruct (record_signal_assert_fails sig w Hpos Hz) as (w2 & Hf).
    rewrite Hf in H. discriminate.
Qed.

(** *** [handle_signal] past its loop *)

Lemma handle_signal_after_loop (fuel : nat) (w w1 : World) :
  while_in_wrapper E fuel w = Returns tt w1 ->
  handle_signal E fuel w =
  match handle_signal_switch E (signal_pending E (status (ctx w))) w1 with
  | Returns true w2 => Returns tt w2
  | Returns false w2 => record_signal E (signal_pending E (status (ctx w))) w2
  | AssertionFailed w2 => AssertionFailed w2
  | OutOfFuel => OutOfFuel
  end.
Proof.
  intros H. unfold handle_signal, bind, load. rewrite H.
  destruct (handle_signal_switch E _ w1) as [[|] w2|w2|]; reflexivity.
Qed.

Lemma handle_signal_in_loop (fuel : nat) (w : World) :
  while_in_wrapper E fuel w = OutOfFuel ->
  handle_signal E fuel w = OutOfFuel.
Proof.
  intros H. unfold handle_signal, bind, load. rewrite H. reflexivity.
Qed.

Lemma handle_signal_switch_other (sig : Z) (w : World) :
  sig <> SIGSEGV -> sig <> SIGIO ->
  handle_signal_switch E sig w = Returns false w.
Proof.
  intros Hs Hi. unfold handle_signal_switch.
  apply Z.eqb_neq in Hs, Hi. rewrite Hs, Hi. reflexivity.
Qed.

Lemma handle_signal_switch_sigio (w : World) :
  handle_signal_switch E SIGIO w =
  if hpc_rbc (hpc w) >=? MAX_RECORD_INTERVAL E
  then Returns true
         (mkWorld (set_child_sig 0 (set_event (USR_SCHED E) (ctx w)))
                  (tracee w) (hpc w) (tsc_reads w)
                  (E_store_child_sig 0 :: E_store_event (USR_SCHED E)
                   :: E_read_rbc :: history w))
  else Returns false (log E_read_rbc w).
Proof.
  unfold handle_signal_switch.
  change (SIGIO =? SIGSEGV) with false. change (SIGIO =? SIGIO) with true.
  run. cbn [log hpc].
  destruct (hpc_rbc (hpc w) >=? MAX_RECORD_INTERVAL E); reflexivity.
Qed.

Lemma handle_signal_switch_sigsegv (w : World) :
  handle_signal_switch E SIGSEGV w =
  match try_handle_rdtsc E w with
  | Returns handled w2 =>
      if handled =? 0
      then match try_handle_shared_mmap_access E w2 with
           | Returns mmap_event w3 =>
               if mmap_event =? 0 then Returns false w3
               else Returns true
                      (log (E_store_child_sig 0)
                         (set_ctx (set_child_sig 0 (set_event mmap_event (ctx w3)))
                            (log (E_store_event mmap_event) w3)))
           | AssertionFailed w3 => AssertionFailed w3
           | OutOfFuel => OutOfFuel
           end
      else Returns true
             (log (E_store_child_sig 0)
                (set_ctx (set_child_sig 0 (set_event (SIG_SEGV_RDTSC E) (ctx w2)))
                   (log (E_store_event (SIG_SEGV_RDTSC E)) w2)))
  | AssertionFailed w2 => AssertionFailed w2
  | OutOfFuel => OutOfFuel
  end.
Proof.
  unfold handle_signal_switch. change (SIGSEGV =? SIGSEGV) with true.
  cbv beta iota. unfold bind at 1.
  destruct (try_handle_rdtsc E w) as [handled w2|w2|]; try reflexivity.
  destruct (handled =? 0); cbn [negb].
  - unfold bind at 1.
    destruct (try_handle_shared_mmap_access E w2) as [m w3|w3|];
      try reflexivity.
    destruct (m =? 0); reflexivity.
  - reflexivity.
Qed.

Lemma extends_store_event (w w' : World) (v : Z) (s : list Z) :
  extends w w' s ->
  extends w
    (log (E_store_child_sig 0)
       (set_ctx (set_child_sig 0 (set_event v (ctx w')))
          (log (E_store_event v) w')))
    (v :: s).
Proof.
  intros (d & Hd & Hs).
  exists (E_store_child_sig 0 :: E_store_event v :: d). split.
  - cbn [log set_ctx history]. rewrite Hd. reflexivity.
  - cbn [event_stores]. rewrite Hs. reflexivity.
Qed.

(** What the [switch] has done when it returns: on a [return] path the
    pending signal is cleared and one tag has been stored (twice on the
    synthetic paths); on the way to [record_signal] nothing has been
    stored. *)
Lemma handle_signal_switch_spec (sig : Z) (w w' : World) (b : bool) :
  SIG_SEGV_MMAP_READ E <> 0 ->
  SIG_SEGV_MMAP_WRITE E <> 0 ->
  handle_signal_switch E sig w = Returns b w' ->
  if b then
    child_sig (ctx w') = 0
    /\ (exists stores, extends w w' stores /\ stores <> []
                       /\ Forall (eq (event (ctx w'))) stores)
    /\ (event (ctx w') = SIG_SEGV_RDTSC E
        \/ event (ctx w') = SIG_SEGV_MMAP_READ E
        \/ event (ctx w') = SIG_SEGV_MMAP_WRITE E
        \/ event (ctx w') = USR_SCHED E)
  else
    extends w w' [] /\ event (ctx w') = event (ctx w)
    /\ child_sig (ctx w') = child_sig (ctx w).
Proof.
  intros Hread Hwrite H.
  destruct (Z.eq_dec sig SIGSEGV) as [->|Hs].
  - rewrite handle_signal_switch_sigsegv in H.
    destruct (try_handle_rdtsc E w) as [handled w2|w2|] eqn:Hr;
      try discriminate.
    apply try_handle_rdtsc_spec in Hr.
    destruct Hr as [(-> & Hx & Hc)|(-> & Hx & Hc)].
    + change (0 =? 0) with true in H. cbv iota in H.
      destruct (try_handle_shared_mmap_access E w2) as [m w3|w3|] eqn:Hm;
        try discriminate.
      apply try_handle_shared_mmap_access_spec in Hm.
      destruct (Z.eqb_spec m 0) as [->|Hnz].
      * injection H as <- <-.
        destruct Hm as [(_ & Hx3 & Hc3)|((iw & Hiw) & _)].
        -- split; [|rewrite Hc3, Hc; split; reflexivity].
           apply (extends_trans _ _ _ _ _ Hx Hx3).
        -- exfalso. unfold mmap_event_of in Hiw.
           destruct iw; [apply Hwrite|apply Hread]; symmetry; exact Hiw.
      * injection H as <- <-.
        destruct Hm as [(Hz & _)|((iw & Hiw) & Hx3 & Hc3)]; [contradiction|].
        cbn [log set_ctx ctx set_child_sig set_event child_sig event].
        split; [reflexivity|]. split.
        -- exists [m; m]. split; [|split].
           ++ apply extends_store_event.
              apply (extends_trans _ _ _ _ _ Hx Hx3).
           ++ discriminate.
           ++ repeat constructor.
        -- right. unfold mmap_event_of in Hiw. destruct iw; auto.
    + change (1 =? 0) with false in H. cbv iota in H.
      injection H as <- <-.
      cbn [log set_ctx ctx set_child_sig set_event child_sig event].
      split; [reflexivity|]. split.
      * exists [SIG_SEGV_RDTSC E; SIG_SEGV_RDTSC E]. split; [|split].
        -- apply extends_store_event. exact Hx.
        -- discriminate.
        -- repeat constructor.
      * left. reflexivity.
  - destruct (Z.eq_dec sig SIGIO) as [->|Hi].
    + rewrite handle_signal_switch_sigio in H.
      destruct (hpc_rbc (hpc w) >=? MAX_RECORD_INTERVAL E).
      * injection H as <- <-. cbn [ctx child_sig event set_child_sig set_event].
        split; [reflexivity|]. split.
        -- exists [USR_SCHED E]. split; [|split].
           ++ exists [E_store_child_sig 0; E_store_event (USR_SCHED E);
                      E_read_rbc]. split; reflexivity.
           ++ discriminate.
           ++ repeat constructor.
        -- auto.
      * injection H as <- <-. repeat split.
        exists [E_read_rbc]. split; reflexivity.
    + rewrite handle_signal_switch_other in H by assumption.
      injection H as <- <-. repeat split. apply extends_refl.
Qed.

Lemma while_in_wrapper_starved (fuel : nat) :
  forall w : World,
    (forall k, (k <= fuel)%nat ->
               in_wrapper E (Nat.iter k (delayed E) w) = true) ->
    while_in_wrapper E fuel w = OutOfFuel.
Proof.
  induction fuel as [|fuel IH]; intros w Hin.
  - apply while_in_wrapper_no_fuel. apply (Hin 0%nat). lia.
  - rewrite while_in_wrapper_inside by (apply (Hin 0%nat); lia).
    apply IH. intros k Hk. rewrite <- Nat.iter_succ_r. apply Hin. lia.
Qed.

End Routines.
(** ** The determinism classifier *)

(** C1.  For a signal number in the synchronous-fault class (SIGILL,
    SIGTRAP, SIGBUS, SIGFPE, SIGSEGV, SIGSTKFLT) the classifier answers
    deterministic (nonzero) exactly when the origin code [si_code] is
    strictly positive; for every other signal number it answers
    non-deterministic (zero) whatever the origin code. *)
Theorem is_deterministic_signal_policy (si : siginfo_t) :
  (In (si_signo si) synchronous_fault_class ->
   (is_deterministic_signal si <> 0 <-> 0 < si_code si))
  /\ (~ In (si_signo si) synchronous_fault_class ->
      is_deterministic_signal si = 0).
Proof.
  unfold is_deterministic_signal, synchronous_fault_class.
  split.
  - intros Hin.
    assert (Hc : (si_signo si =? SIGILL) || (si_signo si =? SIGTRAP)
                 || (si_signo si =? SIGBUS) || (si_signo si =? SIGFPE)
                 || (si_signo si =? SIGSEGV) || (si_signo si =? SIGSTKFLT)
                 = true).
    { cbn [In] in Hin.
      destruct Hin as [H|[H|[H|[H|[H|[H|[]]]]]]]; rewrite <- H;
        rewrite Z.eqb_refl; repeat rewrite orb_true_r; reflexivity. }
    rewrite Hc.
    destruct (Z.gtb_spec (si_code si) 0); split; intros; try lia; discriminate.
  - intros Hout.
    destruct (Z.eqb_spec (si_signo si) SIGILL) as [H|_];
      [exfalso; apply Hout; rewrite H; cbn; tauto|].
    destruct (Z.eqb_spec (si_signo si) SIGTRAP) as [H|_];
      [exfalso; apply Hout; rewrite H; cbn; tauto|].
    destruct (Z.eqb_spec (si_signo si) SIGBUS) as [H|_];
      [exfalso; apply Hout; rewrite H; cbn; tauto|].
    destruct (Z.eqb_spec (si_signo si) SIGFPE) as [H|_];
      [exfalso; apply Hout; rewrite H; cbn; tauto|].
    destruct (Z.eqb_spec (si_signo si) SIGSEGV) as [H|_];
      [exfalso; apply Hout; rewrite H; cbn; tauto|].
    destruct (Z.eqb_spec (si_signo si) SIGSTKFLT) as [H|_];
      [exfalso; apply Hout; rewrite H; cbn; tauto|].
    reflexivity.
Qed.

(** The policy at a kernel-raised SIGILL, at a SIGSEGV sent by another
    process, and at SIGIO. *)
Lemma is_deterministic_signal_policy_witness :
  is_deterministic_signal (mkSiginfo SIGILL 1 0) <> 0
  /\ ~ is_deterministic_signal (mkSiginfo SIGSEGV 0 0) <> 0
  /\ is_deterministic_signal (mkSiginfo SIGIO 1 0) = 0.
Proof.
  split; [|split].
  - apply (proj1 (is_deterministic_signal_policy (mkSiginfo SIGILL 1 0))).
    + cbn. tauto.
    + cbn. lia.
  - intros H.
    apply (proj1 (is_deterministic_signal_policy (mkSiginfo SIGSEGV 0 0))) in H.
    + cbn in H. lia.
    + cbn. tauto.
  - apply (proj2 (is_deterministic_signal_policy (mkSiginfo SIGIO 1 0))).
    cbn. intros [H|[H|[H|[H|[H|[H|[]]]]]]]; discriminate H.
Defined.

(** ** The timestamp trap *)

(** C2.  At a stop with SIGSEGV pending whose current instruction reads
    as [rdtsc] with byte length [L], [try_handle_rdtsc] samples the host
    counter once, leaves the counter's low 32 bits in [eax] and its high
    32 bits in [edx], moves [eip] forward by [L], writes the whole
    snapshot back, tags the event [SIG_SEGV_RDTSC] and returns 1;
    [handle_signal] then returns with that tag and [child_sig] zero.
    With [L = 2] and the counter at [0x100000002], [eax] is 2 and [edx]
    is 1. *)
Theorem rdtsc_trap_emulated
    (E : Collab) (fuel : nat) (w w1 : World) (inst : string) (L : Z) :
  signal_pending E (status (ctx w)) = SIGSEGV ->
  while_in_wrapper E fuel w = Returns tt w1 ->
  signal_pending E (status (ctx w1)) = SIGSEGV ->
  get_inst E (tracee w1) = (inst, L) ->
  strncmp inst "rdtsc" 5 = 0 ->
  let t := host_tsc E (tsc_reads w1) mod 2 ^ 64 in
  let r := regs (tracee w1) in
  let r' := rdtsc_emulated (host_tsc E (tsc_reads w1)) L r in
  let emulation :=
    [E_write_child_registers r'; E_read_child_registers; E_rdtsc;
     E_get_inst] in
  try_handle_rdtsc E w1 =
    Returns 1
      (mkWorld (set_event (SIG_SEGV_RDTSC E) (ctx w1))
               (set_regs r' (tracee w1)) (hpc w1) (S (tsc_reads w1))
               (E_sys_free :: E_store_event (SIG_SEGV_RDTSC E)
                :: emulation ++ history w1))
  /\ handle_signal E fuel w =
    Returns tt
      (mkWorld (set_child_sig 0 (set_event (SIG_SEGV_RDTSC E) (ctx w1)))
               (set_regs r' (tracee w1)) (hpc w1) (S (tsc_reads w1))
               (E_store_child_sig 0 :: E_store_event (SIG_SEGV_RDTSC E)
                :: E_sys_free :: E_store_event (SIG_SEGV_RDTSC E)
                :: emulation ++ history w1))
  /\ ptr_of_long (eax r') = t mod 2 ^ 32
  /\ ptr_of_long (edx r') = t / 2 ^ 32
  /\ ptr_of_long (eip r') = ptr_of_long (eip r + L)
  /\ (- 2 ^ 31 <= eip r + L < 2 ^ 31 -> eip r' = eip r + L)
  /\ (L = 2 -> t = 0x100000002 -> eax r' = 2 /\ edx r' = 1).
Proof.
  intros Hentry Hloop Hs Hi Hc t r r' emulation.
  pose proof (try_handle_rdtsc_hit E w1 inst L Hs Hi Hc) as Hhit.
  cbv zeta in Hhit. fold r r' in Hhit.
  split; [exact Hhit|].
  split.
  { rewrite (handle_signal_after_loop E fuel w w1 Hloop), Hentry.
    rewrite handle_signal_switch_sigsegv, Hhit. reflexivity. }
  assert (Heax : eax r' = wrap32 (t mod 2 ^ 32)).
  { subst t. cbn [r' rdtsc_emulated set_eip set_edx set_eax eax].
    f_equal. symmetry. rewrite <- land_low32. apply low_word_of_counter. }
  assert (Hedx : edx r' = wrap32 (t / 2 ^ 32)) by reflexivity.
  assert (Heip : eip r' = wrap32 (eip r + L)) by reflexivity.
  assert (Hhi : 0 <= t / 2 ^ 32 < 2 ^ 32) by apply high_word_range.
  repeat split.
  - rewrite Heax, ptr_of_long_wrap32. apply Z.mod_mod. lia.
  - rewrite Hedx, ptr_of_long_wrap32. apply Z.mod_small. exact Hhi.
  - rewrite Heip, ptr_of_long_wrap32. reflexivity.
  - intros Hrange. rewrite Heip. apply wrap32_small. exact Hrange.
  - rewrite Heax. rewrite H0. reflexivity.
  - rewrite Hedx. rewrite H0. reflexivity.
Qed.

(** End-to-end scenario 1 on the sample configuration: a two-byte
    [rdtsc] faults while the host counter reads [0x100000002]. *)
Lemma rdtsc_trap_emulated_witness :
  exists w',
    handle_signal Sample.collab 0 (Sample.stopped Sample.segv_status 1 0)
    = Returns tt w'
    /\ eax (regs (tracee w')) = 2
    /\ edx (regs (tracee w')) = 1
    /\ eip (regs (tracee w')) = eip Sample.regs0 + 2
    /\ event (ctx w') = SIG_SEGV_RDTSC Sample.collab
    /\ child_sig (ctx w') = 0
    /\ tsc_reads w' = 1%nat.
Proof.
  destruct (rdtsc_trap_emulated Sample.collab 0
              (Sample.stopped Sample.segv_status 1 0)
              (Sample.stopped Sample.segv_status 1 0)
              "rdtsc" 2 eq_refl eq_refl eq_refl eq_refl eq_refl)
    as (_ & Hrun & _ & _ & _ & Hip & Hregs).
  destruct (Hregs eq_refl eq_refl) as (Ha & Hd).
  eexists. split; [exact Hrun|].
  cbn [tracee ctx regs set_regs set_child_sig set_event event child_sig
       tsc_reads].
  split; [exact Ha|].
  split; [exact Hd|].
  split; [apply Hip; cbn; lia|].
  repeat split.
Defined.

(** ** Accesses to protected mappings *)

(** C3.  At a stop with SIGSEGV pending whose fault address lies in a
    protected region, [try_handle_shared_mmap_access] stores the tag of
    the decoded access kind ([SIG_SEGV_MMAP_WRITE] or
    [SIG_SEGV_MMAP_READ]) into [ctx->event] before it calls
    [emulate_child_inst] -- the emulation runs on the tagged context --
    and returns that tag, which is nonzero; [handle_signal] returns with
    [child_sig] zero, and with that tag as the event when the
    instruction is not an [rdtsc]. *)
Theorem shared_mmap_access_intercepted
    (E : Collab) (fuel : nat) (w w1 : World)
    (inst : string) (L : Z) (is_write : bool) (size : Z) :
  SIG_SEGV_MMAP_READ E <> 0 ->
  SIG_SEGV_MMAP_WRITE E <> 0 ->
  signal_pending E (status (ctx w)) = SIGSEGV ->
  while_in_wrapper E fuel w = Returns tt w1 ->
  signal_pending E (status (ctx w1)) = SIGSEGV ->
  is_protected_map E (ctx w1) (si_addr (siginfo (tracee w1))) = true ->
  is_write_mem_instruction E (tracee w1) = (is_write, size) ->
  get_inst E (tracee w1) = (inst, L) ->
  let tag := if is_write then SIG_SEGV_MMAP_WRITE E else SIG_SEGV_MMAP_READ E in
  let interception :=
    [E_emulate_child_inst; E_store_event tag; E_is_write_mem_instruction;
     E_is_protected_map (si_addr (siginfo (tracee w1))); E_getsiginfo] in
  let emulated := emulate_child_inst E (set_event tag (ctx w1)) (tracee w1) in
  tag <> 0
  /\ try_handle_shared_mmap_access E w1 =
     Returns tag
       (mkWorld (set_event tag (ctx w1)) emulated (hpc w1) (tsc_reads w1)
                (interception ++ history w1))
  /\ (exists w', handle_signal E fuel w = Returns tt w'
                 /\ child_sig (ctx w') = 0)
  /\ (strncmp inst "rdtsc" 5 <> 0 ->
      handle_signal E fuel w =
      Returns tt
        (mkWorld (set_child_sig 0 (set_event tag (ctx w1))) emulated
                 (hpc w1) (tsc_reads w1)
                 (E_store_child_sig 0 :: E_store_event tag
                  :: interception ++ E_sys_free :: E_get_inst :: history w1))).
Proof.
  intros Hread Hwrite Hentry Hloop Hs Hp Hw Hi tag interception emulated.
  assert (Htag : tag <> 0) by (subst tag; destruct is_write; assumption).
  assert (Hmiss : strncmp inst "rdtsc" 5 <> 0 ->
      handle_signal E fuel w =
      Returns tt
        (mkWorld (set_child_sig 0 (set_event tag (ctx w1))) emulated
                 (hpc w1) (tsc_reads w1)
                 (E_store_child_sig 0 :: E_store_event tag
                  :: interception ++ E_sys_free :: E_get_inst :: history w1))).
  { intros Hc.
    rewrite (handle_signal_after_loop E fuel w w1 Hloop), Hentry.
    rewrite handle_signal_switch_sigsegv.
    rewrite (try_handle_rdtsc_miss E w1 inst L Hs Hi Hc).
    change (0 =? 0) with true. cbv iota.
    rewrite (try_handle_shared_mmap_access_inside E
               (log E_sys_free (log E_get_inst w1)) is_write size Hs Hp Hw).
    cbv zeta. fold (mmap_event_of E is_write).
    change (mmap_event_of E is_write) with tag.
    apply Z.eqb_neq in Htag. rewrite Htag. reflexivity. }
  split; [exact Htag|].
  split; [exact (try_handle_shared_mmap_access_inside E w1 is_write size
                   Hs Hp Hw)|].
  split; [|exact Hmiss].
  destruct (Z.eq_dec (strncmp inst "rdtsc" 5) 0) as [Hc|Hc].
  - eexists. split.
    + rewrite (handle_signal_after_loop E fuel w w1 Hloop), Hentry.
      rewrite handle_signal_switch_sigsegv.
      rewrite (try_handle_rdtsc_hit E w1 inst L Hs Hi Hc). reflexivity.
    + reflexivity.
  - eexists. split; [exact (Hmiss Hc)|reflexivity].
Qed.

(** End-to-end scenario 2 on the sample configuration: a store to
    address [0x5000], the first byte of the protected page. *)
Lemma shared_mmap_access_intercepted_witness :
  exists w',
    handle_signal Sample.store 0 (Sample.stopped Sample.segv_status 1 0x5000)
    = Returns tt w'
    /\ event (ctx w') = SIG_SEGV_MMAP_WRITE Sample.store
    /\ child_sig (ctx w') = 0
    /\ eip (regs (tracee w')) = eip Sample.regs0 + 3.
Proof.
  destruct (shared_mmap_access_intercepted Sample.store 0
              (Sample.stopped Sample.segv_status 1 0x5000)
              (Sample.stopped Sample.segv_status 1 0x5000)
              "mov" 3 true 3
              ltac:(discriminate) ltac:(discriminate)
              eq_refl eq_refl eq_refl eq_refl eq_refl eq_refl)
    as (_ & _ & _ & Hrun).
  eexists. split.
  - apply Hrun. discriminate.
  - repeat split.
Defined.

(** C8.  At a stop with SIGSEGV pending whose fault address lies in no
    protected region, [try_handle_shared_mmap_access] returns 0 and
    changes nothing: the context (event and pending signal included),
    the tracee (registers and memory included) and the counters are
    what they were; only the two look-ups were made. *)
Theorem shared_mmap_access_outside_untouched (E : Collab) (w : World) :
  signal_pending E (status (ctx w)) = SIGSEGV ->
  is_protected_map E (ctx w) (si_addr (siginfo (tracee w))) = false ->
  exists w',
    try_handle_shared_mmap_access E w = Returns 0 w'
    /\ event (ctx w') = event (ctx w)
    /\ child_sig (ctx w') = child_sig (ctx w)
    /\ regs (tracee w') = regs (tracee w)
    /\ mem (tracee w') = mem (tracee w)
    /\ ctx w' = ctx w /\ tracee w' = tracee w /\ hpc w' = hpc w
    /\ tsc_reads w' = tsc_reads w
    /\ history w' =
       [E_is_protected_map (si_addr (siginfo (tracee w))); E_getsiginfo]
       ++ history w.
Proof.
  intros Hs Hp. eexists. split.
  - apply try_handle_shared_mmap_access_outside; assumption.
  - repeat split.
Qed.

(** A SIGSEGV at address [0x4fff], one byte below the protected page. *)
Lemma shared_mmap_access_outside_untouched_witness :
  exists w',
    try_handle_shared_mmap_access Sample.store
      (Sample.stopped Sample.segv_status 1 0x4fff) = Returns 0 w'
    /\ ctx w' = ctx (Sample.stopped Sample.segv_status 1 0x4fff)
    /\ tracee w' = tracee (Sample.stopped Sample.segv_status 1 0x4fff).
Proof.
  destruct (shared_mmap_access_outside_untouched Sample.store
              (Sample.stopped Sample.segv_status 1 0x4fff) eq_refl eq_refl)
    as (w' & Hrun & _ & _ & _ & _ & Hctx & Htracee & _).
  exists w'. split; [exact Hrun|]. split; [exact Hctx|exact Htracee].
Defined.

(** ** The synthetic-fault handlers on other signals *)

(** C6, as the code has it.  With no signal pending, or a pending signal
    other than SIGSEGV and other than SIGTRAP, both handlers return 0
    and leave the world exactly as it was; with SIGTRAP pending the
    [assert] at the head of each handler fails instead. *)
Theorem synthetic_handlers_decline (E : Collab) (w : World) :
  (signal_pending E (status (ctx w)) <> SIGSEGV ->
   signal_pending E (status (ctx w)) <> SIGTRAP ->
   try_handle_rdtsc E w = Returns 0 w
   /\ try_handle_shared_mmap_access E w = Returns 0 w)
  /\ (signal_pending E (status (ctx w)) = SIGTRAP ->
      try_handle_rdtsc E w = AssertionFailed w
      /\ try_handle_shared_mmap_access E w = AssertionFailed w).
Proof.
  split.
  - intros Hs Ht. split.
    + apply try_handle_rdtsc_not_segv; assumption.
    + apply try_handle_shared_mmap_access_not_segv; assumption.
  - intros Ht. split.
    + apply try_handle_rdtsc_sigtrap; assumption.
    + apply try_handle_shared_mmap_access_sigtrap; assumption.
Qed.

(** The handlers at a stop with SIGIO, at a stop without a signal, and
    at a stop with SIGTRAP. *)
Lemma synthetic_handlers_decline_witness :
  (try_handle_rdtsc Sample.collab (Sample.stopped Sample.io_status 0 0)
   = Returns 0 (Sample.stopped Sample.io_status 0 0)
   /\ try_handle_shared_mmap_access Sample.collab
        (Sample.stopped Sample.io_status 0 0)
      = Returns 0 (Sample.stopped Sample.io_status 0 0))
  /\ (try_handle_rdtsc Sample.collab
        (Sample.stopped Sample.no_signal_status 0 0)
      = Returns 0 (Sample.stopped Sample.no_signal_status 0 0)
      /\ try_handle_shared_mmap_access Sample.collab
           (Sample.stopped Sample.no_signal_status 0 0)
         = Returns 0 (Sample.stopped Sample.no_signal_status 0 0))
  /\ (try_handle_rdtsc Sample.collab (Sample.stopped Sample.trap_status 1 0)
      = AssertionFailed (Sample.stopped Sample.trap_status 1 0)
      /\ try_handle_shared_mmap_access Sample.collab
           (Sample.stopped Sample.trap_status 1 0)
         = AssertionFailed (Sample.stopped Sample.trap_status 1 0)).
Proof.
  split; [|split].
  - apply (proj1 (synthetic_handlers_decline Sample.collab
                    (Sample.stopped Sample.io_status 0 0))); discriminate.
  - apply (proj1 (synthetic_handlers_decline Sample.collab
                    (Sample.stopped Sample.no_signal_status 0 0)));
      discriminate.
  - apply (proj2 (synthetic_handlers_decline Sample.collab
                    (Sample.stopped Sample.trap_status 1 0))).
    reflexivity.
Defined.

(** C6, as the specification words it, fails at SIGTRAP: that signal is not a
    segmentation fault, yet neither handler returns. *)
Lemma synthetic_handlers_sigtrap_counterexample :
  signal_pending Sample.collab
    (status (ctx (Sample.stopped Sample.trap_status 1 0))) = SIGTRAP
  /\ SIGTRAP <> SIGSEGV
  /\ try_handle_rdtsc Sample.collab (Sample.stopped Sample.trap_status 1 0)
     <> Returns 0 (Sample.stopped Sample.trap_status 1 0)
  /\ try_handle_shared_mmap_access Sample.collab
       (Sample.stopped Sample.trap_status 1 0)
     <> Returns 0 (Sample.stopped Sample.trap_status 1 0)
  /\ ~ (exists r w', try_handle_rdtsc Sample.collab
                       (Sample.stopped Sample.trap_status 1 0)
                     = Returns r w').
Proof.
  split; [reflexivity|].
  split; [discriminate|].
  split; [|split].
  - rewrite try_handle_rdtsc_sigtrap by reflexivity. discriminate.
  - rewrite try_handle_shared_mmap_access_sigtrap by reflexivity. discriminate.
  - intros (r & w' & H).
    rewrite try_handle_rdtsc_sigtrap in H by reflexivity. discriminate.
Qed.

(** ** The scheduling interrupt *)

(** C4.  With SIGIO pending at entry: when the branch counter has
    reached [MAX_RECORD_INTERVAL], [handle_signal] tags the event
    [USR_SCHED], clears [child_sig] and returns having read the counter
    and stored those two fields, nothing else; when the counter is
    below the budget, [handle_signal] is [record_signal] on SIGIO. *)
Theorem sigio_time_slice (E : Collab) (fuel : nat) (w w1 : World) :
  signal_pending E (status (ctx w)) = SIGIO ->
  while_in_wrapper E fuel w = Returns tt w1 ->
  (hpc_rbc (hpc w1) >= MAX_RECORD_INTERVAL E ->
   handle_signal E fuel w =
   Returns tt
     (mkWorld (set_child_sig 0 (set_event (USR_SCHED E) (ctx w1)))
              (tracee w1) (hpc w1) (tsc_reads w1)
              (E_store_child_sig 0 :: E_store_event (USR_SCHED E)
               :: E_read_rbc :: history w1)))
  /\ (hpc_rbc (hpc w1) < MAX_RECORD_INTERVAL E ->
      handle_signal E fuel w = record_signal E SIGIO (log E_read_rbc w1)).
Proof.
  intros Hentry Hloop.
  rewrite (handle_signal_after_loop E fuel w w1 Hloop), Hentry.
  rewrite handle_signal_switch_sigio.
  split; intros Hrbc.
  - apply Z.geb_ge in Hrbc. rewrite Hrbc. reflexivity.
  - assert (Hlt : (hpc_rbc (hpc w1) >=? MAX_RECORD_INTERVAL E) = false).
    { rewrite Z.geb_leb. apply Z.leb_gt. exact Hrbc. }
    rewrite Hlt. reflexivity.
Qed.

(** SIGIO with the branch counter at the budget, and one below it. *)
Lemma sigio_time_slice_witness :
  (exists w',
     handle_signal Sample.collab 0 (Sample.stopped_at Sample.io_status 0 0 10000)
     = Returns tt w'
     /\ event (ctx w') = USR_SCHED Sample.collab
     /\ child_sig (ctx w') = 0
     /\ history w' =
        [E_store_child_sig 0; E_store_event (USR_SCHED Sample.collab);
         E_read_rbc])
  /\ handle_signal Sample.collab 0 (Sample.stopped_at Sample.io_status 0 0 9999)
     = record_signal Sample.collab SIGIO
         (log E_read_rbc (Sample.stopped_at Sample.io_status 0 0 9999)).
Proof.
  split.
  - eexists. split.
    + apply (proj1 (sigio_time_slice Sample.collab 0
                      (Sample.stopped_at Sample.io_status 0 0 10000)
                      (Sample.stopped_at Sample.io_status 0 0 10000)
                      eq_refl eq_refl)).
      cbn. discriminate.
    + repeat split.
  - apply (proj2 (sigio_time_slice Sample.collab 0
                    (Sample.stopped_at Sample.io_status 0 0 9999)
                    (Sample.stopped_at Sample.io_status 0 0 9999)
                    eq_refl eq_refl)).
    reflexivity.
Defined.

(** ** Recording a genuine signal *)




(** C10.  When [handle_signal] is entered with a positive pending signal
    and its [switch] takes none of its three [return]s, it returns from
    [record_signal] with [child_sig] equal to that signal, hence
    nonzero; when the [switch] does return, [child_sig] is zero and the
    event is one of the three synthetic tags or [USR_SCHED]. *)
Theorem child_sig_on_return (E : Collab) (fuel : nat) (w w1 w2 : World) :
  let sig := signal_pending E (status (ctx w)) in
  0 < sig ->
  while_in_wrapper E fuel w = Returns tt w1 ->
  (handle_signal_switch E sig w1 = Returns false w2 ->
   hpc_insts (reset_counters E sig w2) = 0 ->
   exists w',
     handle_signal E fuel w = Returns tt w'
     /\ child_sig (ctx w') = sig
     /\ child_sig (ctx w') <> 0)
  /\ (SIG_SEGV_MMAP_READ E <> 0 -> SIG_SEGV_MMAP_WRITE E <> 0 ->
      handle_signal_switch E sig w1 = Returns true w2 ->
      handle_signal E fuel w = Returns tt w2
      /\ child_sig (ctx w2) = 0
      /\ (event (ctx w2) = SIG_SEGV_RDTSC E
          \/ event (ctx w2) = SIG_SEGV_MMAP_READ E
          \/ event (ctx w2) = SIG_SEGV_MMAP_WRITE E
          \/ event (ctx w2) = USR_SCHED E)).
Proof.
  intros sig Hpos Hloop. split.
  - intros Hsw Hz.
    eexists. split; [|split].
    + rewrite (handle_signal_after_loop E fuel w w1 Hloop). fold sig.
      rewrite Hsw. apply (record_signal_positive E sig w2 Hpos Hz).
    + reflexivity.
    + cbn [ctx child_sig set_status tagged_ctx set_event set_child_sig]. lia.
  - intros Hread Hwrite Hsw.
    pose proof (handle_signal_switch_spec E sig w1 w2 true Hread Hwrite Hsw)
      as (Hc & _ & Hev).
    split; [|split; assumption].
    rewrite (handle_signal_after_loop E fuel w w1 Hloop). fold sig.
    rewrite Hsw. reflexivity.
Qed.

(** A kernel-raised SIGILL is recorded with [child_sig] 4; a SIGSEGV on
    [rdtsc] is resolved with [child_sig] 0. *)
Lemma child_sig_on_return_witness :
  (exists w',
     handle_signal Sample.collab 0 (Sample.stopped Sample.ill_status 1 0)
     = Returns tt w'
     /\ child_sig (ctx w') = SIGILL)
  /\ (exists w',
        handle_signal Sample.collab 0 (Sample.stopped Sample.segv_status 1 0)
        = Returns tt w'
        /\ child_sig (ctx w') = 0).
Proof.
  split.
  - destruct (proj1 (child_sig_on_return Sample.collab 0
                       (Sample.stopped Sample.ill_status 1 0)
                       (Sample.stopped Sample.ill_status 1 0)
                       (Sample.stopped Sample.ill_status 1 0)
                       eq_refl eq_refl) eq_refl eq_refl)
      as (w' & Hrun & Hsig & _).
    exists w'. split; [exact Hrun|exact Hsig].
  - eexists.
    refine (let H := proj2 (child_sig_on_return Sample.collab 0
                       (Sample.stopped Sample.segv_status 1 0)
                       (Sample.stopped Sample.segv_status 1 0) _
                       eq_refl eq_refl)
                       ltac:(discriminate) ltac:(discriminate) eq_refl in
            conj (proj1 H) (proj1 (proj2 H))).
Defined.

(** ** Signals that arrive inside wrapper code *)

(** C9, as the code has it.  Entered with the instruction pointer in
    wrapper code, [handle_signal] repeats: single-step with signal 0,
    wait, re-read the registers into the context, test the pointer
    again.  If the pointer is first outside after [n] steps, the loop
    runs exactly [n] times and the [switch] then runs at that stop; with
    fewer than [n] iterations allowed nothing is classified.  The loop
    has no bound of its own: if the pointer never leaves, no number of
    iterations ends it. *)
Theorem critical_section_drained (E : Collab) (w : World) :
  (forall (n fuel : nat),
      (forall k, (k < n)%nat ->
                 in_wrapper E (Nat.iter k (delayed E) w) = true) ->
      in_wrapper E (Nat.iter n (delayed E) w) = false ->
      let w1 := Nat.iter n (delayed E) w in
      let sig := signal_pending E (status (ctx w)) in
      ((n <= fuel)%nat ->
       while_in_wrapper E fuel w = Returns tt w1
       /\ history w1 = delay_effects n ++ history w
       /\ handle_signal E fuel w =
          match handle_signal_switch E sig w1 with
          | Returns true w2 => Returns tt w2
          | Returns false w2 => record_signal E sig w2
          | AssertionFailed w2 => AssertionFailed w2
          | OutOfFuel => OutOfFuel
          end)
      /\ ((fuel < n)%nat -> handle_signal E fuel w = OutOfFuel))
  /\ ((forall k, in_wrapper E (Nat.iter k (delayed E) w) = true) ->
      forall fuel, handle_signal E fuel w = OutOfFuel).
Proof.
  split.
  - intros n fuel Hin Hout w1 sig. split.
    + intros Hfuel.
      pose proof (while_in_wrapper_exits E n w fuel Hin Hout Hfuel) as Hloop.
      split; [exact Hloop|]. split; [apply history_delayed|].
      apply (handle_signal_after_loop E fuel w w1 Hloop).
    + intros Hfuel. apply handle_signal_in_loop.
      apply while_in_wrapper_starved. intros k Hk. apply Hin. lia.
  - intros Hin fuel. apply handle_signal_in_loop.
    apply while_in_wrapper_starved. intros k _. apply Hin.
Qed.

(** End-to-end scenario 4 on the sample configuration: a SIGILL arrives
    at the first byte of three bytes of wrapper code.  Three silent
    single steps are taken, then the signal is recorded; two would not
    have been enough. *)
Lemma critical_section_drained_witness :
  (exists w',
     handle_signal Sample.wrapped 3 (Sample.stopped Sample.ill_status 1 0)
     = Returns tt w'
     /\ skipn 11 (history w') = delay_effects 3
     /\ child_sig (ctx w') = SIGILL)
  /\ handle_signal Sample.wrapped 2 (Sample.stopped Sample.ill_status 1 0)
     = OutOfFuel.
Proof.
  assert (Hin : forall k, (k < 3)%nat ->
            in_wrapper Sample.wrapped
              (Nat.iter k (delayed Sample.wrapped)
                 (Sample.stopped Sample.ill_status 1 0)) = true).
  { intros [|[|[|k]]] Hk; try reflexivity. lia. }
  destruct (proj1 (critical_section_drained Sample.wrapped
                     (Sample.stopped Sample.ill_status 1 0))
              3%nat 3%nat Hin eq_refl) as (Hrun & _).
  destruct (Hrun (le_n 3)) as (_ & _ & Hsig).
  split.
  - exists (Sample.outcome Sample.wrapped 3
              (Sample.stopped Sample.ill_status 1 0)).
    split; [rewrite Hsig; vm_compute; reflexivity|].
    split; vm_compute; reflexivity.
  - apply (proj2 (proj1 (critical_section_drained Sample.wrapped
                           (Sample.stopped Sample.ill_status 1 0))
                    3%nat 2%nat Hin eq_refl)).
    lia.
Defined.

(** C9, as the specification words it, fails: the tracee of [Sample.spinning]
    is in wrapper code at entry and stays there, and [handle_signal]
    never gets past its loop, whatever number of iterations it is
    given. *)
Lemma critical_section_spinning_counterexample :
  in_wrapper Sample.spinning (Sample.stopped Sample.ill_status 1 0) = true
  /\ ~ (exists fuel,
         handle_signal Sample.spinning fuel
           (Sample.stopped Sample.ill_status 1 0) <> OutOfFuel).
Proof.
  split; [reflexivity|].
  intros (fuel & H). apply H.
  apply handle_signal_in_loop.
  apply while_in_wrapper_stuck. intros w. reflexivity.
Qed.

(** ** One tag per stop *)

(** C5, as the code has it.  Whenever [handle_signal] returns, the
    stores it made into [ctx->event] are these: with a positive pending
    signal, at least one store, every store of the same tag, that tag
    being the event at return; with no pending signal (or a negative
    value), no store at all, the event being what it was at entry.  The
    two mapping tags are taken to be nonzero, as a handler's "handled"
    result must be. *)
Theorem one_tag_per_stop (E : Collab) (fuel : nat) (w w' : World) :
  SIG_SEGV_MMAP_READ E <> 0 ->
  SIG_SEGV_MMAP_WRITE E <> 0 ->
  handle_signal E fuel w = Returns tt w' ->
  exists stores,
    extends w w' stores
    /\ (0 < signal_pending E (status (ctx w)) ->
        stores <> [] /\ Forall (eq (event (ctx w'))) stores)
    /\ (signal_pending E (status (ctx w)) <= 0 ->
        stores = [] /\ event (ctx w') = event (ctx w)).
Proof.
  intros Hread Hwrite H.
  destruct (while_in_wrapper E fuel w) as [[] w1|w1|] eqn:Hloop.
  2: { unfold handle_signal, bind, load in H. rewrite Hloop in H.
       discriminate. }
  2: { rewrite handle_signal_in_loop in H by exact Hloop. discriminate. }
  rewrite (handle_signal_after_loop E fuel w w1 Hloop) in H.
  apply while_in_wrapper_spec in Hloop. destruct Hloop as (Hx1 & He1 & _).
  set (sig := signal_pending E (status (ctx w))) in *.
  destruct (handle_signal_switch E sig w1) as [b w2|w2|] eqn:Hsw;
    try discriminate.
  pose proof (handle_signal_switch_spec E sig w1 w2 b Hread Hwrite Hsw) as Hspec.
  destruct b.
  - injection H as <-.
    destruct Hspec as (_ & (stores & Hx2 & Hne & Hall) & _).
    exists (stores ++ []). rewrite app_nil_r. split; [|split].
    + rewrite <- (app_nil_r stores). apply (extends_trans _ _ _ _ _ Hx1 Hx2).
    + intros _. split; assumption.
    + intros Hle. exfalso.
      destruct (Z.eq_dec sig SIGSEGV) as [Hs|Hs];
        [rewrite Hs in Hle; apply Hle; reflexivity|].
      destruct (Z.eq_dec sig SIGIO) as [Hi|Hi];
        [rewrite Hi in Hle; apply Hle; reflexivity|].
      rewrite handle_signal_switch_other in Hsw by assumption.
      discriminate.
  - destruct Hspec as (Hx2 & He2 & _).
    pose proof (extends_trans _ _ _ _ _ Hx1 Hx2) as Hx12.
    destruct (Z.leb_spec sig 0) as [Hle|Hpos].
    + rewrite record_signal_nonpositive in H by exact Hle.
      injection H as <-.
      exists []. split; [exact Hx12|]. split.
      * intros Hpos. lia.
      * intros _. split; [reflexivity|]. rewrite He2. exact He1.
    + apply record_signal_spec in H; [|exact Hpos].
      destruct H as (Hx3 & He3 & _).
      exists [signal_event E sig (siginfo (tracee w2))]. split; [|split].
      * apply (extends_trans _ _ _ _ _ Hx12 Hx3).
      * intros _. split; [discriminate|].
        rewrite He3. repeat constructor.
      * intros Hle. lia.
Qed.

(** The stops of the earlier scenarios each get one tag: the [rdtsc]
    trap stores its tag twice, the recorded signal once; a stop without
    a signal gets none. *)
Lemma one_tag_per_stop_witness :
  (exists stores,
     extends (Sample.stopped Sample.segv_status 1 0)
       (Sample.outcome Sample.collab 0 (Sample.stopped Sample.segv_status 1 0))
       stores
     /\ stores <> [] /\ Forall (eq (SIG_SEGV_RDTSC Sample.collab)) stores)
  /\ (exists stores,
        extends (Sample.stopped Sample.ill_status 1 0)
          (Sample.outcome Sample.collab 0 (Sample.stopped Sample.ill_status 1 0))
          stores
        /\ stores <> [] /\ Forall (eq (- 132)) stores)
  /\ (exists stores,
        extends (Sample.stopped Sample.no_signal_status 0 0)
          (Sample.outcome Sample.collab 0
             (Sample.stopped Sample.no_signal_status 0 0))
          stores
        /\ stores = []).
Proof.
  split; [|split].
  - destruct (one_tag_per_stop Sample.collab 0
                (Sample.stopped Sample.segv_status 1 0)
                (Sample.outcome Sample.collab 0
                   (Sample.stopped Sample.segv_status 1 0))
                ltac:(discriminate) ltac:(discriminate)
                ltac:(vm_compute; reflexivity))
      as (stores & Hx & Hpos & _).
    exists stores. split; [exact Hx|]. apply Hpos. reflexivity.
  - destruct (one_tag_per_stop Sample.collab 0
                (Sample.stopped Sample.ill_status 1 0)
                (Sample.outcome Sample.collab 0
                   (Sample.stopped Sample.ill_status 1 0))
                ltac:(discriminate) ltac:(discriminate)
                ltac:(vm_compute; reflexivity))
      as (stores & Hx & Hpos & _).
    exists stores. split; [exact Hx|]. apply Hpos. reflexivity.
  - destruct (one_tag_per_stop Sample.collab 0
                (Sample.stopped Sample.no_signal_status 0 0)
                (Sample.outcome Sample.collab 0
                   (Sample.stopped Sample.no_signal_status 0 0))
                ltac:(discriminate) ltac:(discriminate)
                ltac:(vm_compute; reflexivity))
      as (stores & Hx & _ & Hnone).
    exists stores. split; [exact Hx|]. apply Hnone. discriminate.
Defined.

(** C5, as the specification words it, fails at a stop that carries no signal:
    [handle_signal] returns having stored no tag at all. *)
Lemma no_signal_no_tag_counterexample :
  signal_pending Sample.collab
    (status (ctx (Sample.stopped Sample.no_signal_status 0 0))) = 0
  /\ handle_signal Sample.collab 0 (Sample.stopped Sample.no_signal_status 0 0)
  = Returns tt (Sample.stopped Sample.no_signal_status 0 0)
  /\ event_stores (history (Sample.stopped Sample.no_signal_status 0 0)) = [].
Proof. repeat split. Qed.

(** * Further properties of the routines *)

(** ** [rdtsc] and the words it is made of *)

Lemma high_word_of_mod (t : Z) :
  (t mod 2 ^ 64) / 2 ^ 32 = (t / 2 ^ 32) mod 2 ^ 32.
Proof.
  change (2 ^ 64) with (2 ^ 32 * 2 ^ 32).
  rewrite Z.rem_mul_r by lia.
  rewrite Z.add_comm, Z.mul_comm, Z.div_add_l by lia.
  rewrite (Z.div_small (t mod 2 ^ 32)) by (apply Z.mod_pos_bound; lia).
  apply Z.add_0_r.
Qed.

(** X1.  The 64-bit value [rdtsc()] returns is a round trip of the two
    32-bit words the instruction delivers: masking it with [0xffffffff]
    gives back the low word, shifting it right by 32 gives back the high
    word, and it lies in the range of [unsigned long long].  One
    reading of the host counter is consumed. *)
Theorem rdtsc_words_round_trip (E : Collab) (w : World) :
  let t := host_tsc E (tsc_reads w) in
  let lo := Z.land t 0xffffffff in
  let hi := Z.land (Z.shiftr t 32) 0xffffffff in
  exists v w',
    rdtsc E w = Returns v w'
    /\ 0 <= v < 2 ^ 64
    /\ Z.land v 0xffffffff = lo
    /\ Z.shiftr v 32 = hi
    /\ tsc_reads w' = S (tsc_reads w)
    /\ ctx w' = ctx w /\ tracee w' = tracee w.
Proof.
  intros t lo hi. unfold rdtsc. fold t. fold lo. fold hi.
  eexists. eexists. split; [reflexivity|].
  subst lo hi. rewrite rdtsc_value.
  split; [apply Z.mod_pos_bound; lia|].
  split; [rewrite low_word_of_counter; symmetry; apply land_low32|].
  split; [|repeat split].
  rewrite high_word_of_counter, high_word_of_mod, land_low32.
  rewrite Z.shiftr_div_pow2 by lia. reflexivity.
Qed.

(** ** Which instructions [try_handle_rdtsc] takes for [rdtsc] *)

Lemma uchar_inj (c c' : ascii) : uchar c = uchar c' -> c = c'.
Proof.
  unfold uchar. intros H. apply N2Z.inj in H.
  rewrite <- (ascii_N_embedding c), <- (ascii_N_embedding c'), H.
  reflexivity.
Qed.

Lemma strncmp_step (s1 s2 : string) (n : nat) :
  strncmp s1 s2 (S n) =
  let c1 := match s1 with EmptyString => 0 | String c _ => uchar c end in
  let c2 := match s2 with EmptyString => 0 | String c _ => uchar c end in
  if negb (c1 =? c2) then c1 - c2
  else if c1 =? 0 then 0
  else match s1, s2 with
       | String _ t1, String _ t2 => strncmp t1 t2 n
       | _, _ => 0
       end.
Proof. reflexivity. Qed.

Lemma strncmp_head (s : string) (c : ascii) (t : string) (n : nat) :
  uchar c <> 0 ->
  strncmp s (String c t) (S n) = 0 ->
  exists t', s = String c t' /\ strncmp t' t n = 0.
Proof.
  intros Hc H. rewrite strncmp_step in H. cbv zeta in H.
  destruct s as [|c' t'].
  - destruct (Z.eqb_spec 0 (uchar c)) as [He|He]; cbn [negb] in H; lia.
  - destruct (Z.eqb_spec (uchar c') (uchar c)) as [He|He]; cbn [negb] in H.
    + apply uchar_inj in He. subst c'.
      destruct (Z.eqb_spec (uchar c) 0) as [Hz|_]; [contradiction|].
      exists t'. split; [reflexivity|exact H].
    + lia.
Qed.

Lemma strncmp_rdtsc_iff (s : string) :
  strncmp s "rdtsc" 5 = 0 <-> exists rest, s = ("rdtsc" ++ rest)%string.
Proof.
  split.
  - intros H.
    apply strncmp_head in H; [|discriminate]. destruct H as (s1 & -> & H).
    apply strncmp_head in H; [|discriminate]. destruct H as (s2 & -> & H).
    apply strncmp_head in H; [|discriminate]. destruct H as (s3 & -> & H).
    apply strncmp_head in H; [|discriminate]. destruct H as (s4 & -> & H).
    apply strncmp_head in H; [|discriminate]. destruct H as (s5 & -> & _).
    exists s5. reflexivity.
  - intros (rest & ->). apply strncmp_rdtsc_prefix.
Qed.

(** X2.  [try_handle_rdtsc] compares only the first five bytes of the
    decoded text: whenever it returns, its result is nonzero exactly
    when SIGSEGV is pending and the text begins with [rdtsc] -- so
    [rdtscp] is taken for [rdtsc] too. *)
Theorem try_handle_rdtsc_matches_prefix
    (E : Collab) (w w' : World) (r : Z) :
  try_handle_rdtsc E w = Returns r w' ->
  (r <> 0 <->
   signal_pending E (status (ctx w)) = SIGSEGV
   /\ exists rest, fst (get_inst E (tracee w)) = ("rdtsc" ++ rest)%string).
Proof.
  intros H.
  destruct (Z.eq_dec (signal_pending E (status (ctx w))) SIGTRAP) as [Ht|Ht].
  { rewrite try_handle_rdtsc_sigtrap in H by exact Ht. discriminate. }
  destruct (Z.eq_dec (signal_pending E (status (ctx w))) SIGSEGV) as [Hs|Hs].
  - destruct (get_inst E (tracee w)) as [inst L] eqn:Hi. cbn [fst].
    rewrite <- strncmp_rdtsc_iff.
    destruct (Z.eq_dec (strncmp inst "rdtsc" 5) 0) as [Hc|Hc].
    + rewrite (try_handle_rdtsc_hit E w inst L Hs Hi Hc) in H.
      injection H as <- _. split; [auto|]. intros _. discriminate.
    + rewrite (try_handle_rdtsc_miss E w inst L Hs Hi Hc) in H.
      injection H as <- _. split; [intros Hr; contradiction|].
      intros (_ & Hz). contradiction.
  - rewrite try_handle_rdtsc_not_segv in H by assumption.
    injection H as <- _. split; [intros Hr; contradiction|].
    intros (Hz & _). contradiction.
Qed.

(** A faulting [rdtscp] is emulated as [rdtsc]; a faulting [mov] is not. *)
Lemma try_handle_rdtsc_matches_prefix_witness :
  (exists r w',
     try_handle_rdtsc Probe.rdtscp (Sample.stopped Sample.segv_status 1 0)
     = Returns r w' /\ r <> 0)
  /\ (exists r w',
        try_handle_rdtsc Sample.store (Sample.stopped Sample.segv_status 1 0)
        = Returns r w' /\ ~ r <> 0).
Proof.
  split.
  - pose (w' := match try_handle_rdtsc Probe.rdtscp
                        (Sample.stopped Sample.segv_status 1 0) with
                | Returns _ w' => w'
                | _ => Sample.stopped Sample.segv_status 1 0
                end).
    assert (H : try_handle_rdtsc Probe.rdtscp
                  (Sample.stopped Sample.segv_status 1 0) = Returns 1 w')
      by (vm_compute; reflexivity).
    exists 1, w'. split; [exact H|].
    apply (proj2 (try_handle_rdtsc_matches_prefix Probe.rdtscp _ _ _ H)).
    split; [reflexivity|]. exists "p"%string. reflexivity.
  - pose (w' := match try_handle_rdtsc Sample.store
                        (Sample.stopped Sample.segv_status 1 0) with
                | Returns _ w' => w'
                | _ => Sample.stopped Sample.segv_status 1 0
                end).
    assert (H : try_handle_rdtsc Sample.store
                  (Sample.stopped Sample.segv_status 1 0) = Returns 0 w')
      by (vm_compute; reflexivity).
    exists 0, w'. split; [exact H|].
    intros Hr.
    apply (proj1 (try_handle_rdtsc_matches_prefix Sample.store _ _ _ H)) in Hr.
    destruct Hr as (_ & rest & Hrest). discriminate Hrest.
Defined.

(** ** What the two handlers leave alone *)

Lemma wrap32_range (z : Z) : - 2 ^ 31 <= wrap32 z < 2 ^ 31.
Proof.
  unfold wrap32.
  assert (0 <= (z + 2 ^ 31) mod 2 ^ 32 < 2 ^ 32)
    by (apply Z.mod_pos_bound; lia).
  lia.
Qed.

(** X3.  Whenever [try_handle_rdtsc] returns, its result is 0 or 1; the
    context keeps its wait status, pending signal and register snapshot;
    the tracee keeps its memory, its fault info and every register but
    [eax], [edx] and [eip], and the counters are untouched.  On result
    0 the context and the tracee are exactly what they were and the
    host counter has not been read; on result 1 the three registers
    written are values of a 32-bit [long]. *)
Theorem try_handle_rdtsc_footprint (E : Collab) (w w' : World) (r : Z) :
  try_handle_rdtsc E w = Returns r w' ->
  let r0 := regs (tracee w) in
  let r1 := regs (tracee w') in
  (r = 0 \/ r = 1)
  /\ status (ctx w') = status (ctx w)
  /\ child_sig (ctx w') = child_sig (ctx w)
  /\ child_regs (ctx w') = child_regs (ctx w)
  /\ hpc w' = hpc w
  /\ mem (tracee w') = mem (tracee w)
  /\ siginfo (tracee w') = siginfo (tracee w)
  /\ wstatus (tracee w') = wstatus (tracee w)
  /\ set_eax (eax r0) (set_edx (edx r0) (set_eip (eip r0) r1)) = r0
  /\ (r = 0 ->
      ctx w' = ctx w /\ tracee w' = tracee w /\ tsc_reads w' = tsc_reads w)
  /\ (r = 1 ->
      - 2 ^ 31 <= eax r1 < 2 ^ 31 /\ - 2 ^ 31 <= edx r1 < 2 ^ 31
      /\ - 2 ^ 31 <= eip r1 < 2 ^ 31
      /\ tsc_reads w' = S (tsc_reads w)).
Proof.
  intros H r0 r1.
  destruct (Z.eq_dec (signal_pending E (status (ctx w))) SIGTRAP) as [Ht|Ht].
  { rewrite try_handle_rdtsc_sigtrap in H by exact Ht. discriminate. }
  destruct (Z.eq_dec (signal_pending E (status (ctx w))) SIGSEGV) as [Hs|Hs];
    [destruct (get_inst E (tracee w)) as [inst L] eqn:Hi;
     destruct (Z.eq_dec (strncmp inst "rdtsc" 5) 0) as [Hc|Hc];
     [rewrite (try_handle_rdtsc_hit E w inst L Hs Hi Hc) in H
     |rewrite (try_handle_rdtsc_miss E w inst L Hs Hi Hc) in H]
    |rewrite try_handle_rdtsc_not_segv in H by assumption];
    injection H as <- <-; subst r0 r1;
    cbn [log ctx tracee hpc tsc_reads set_event set_regs regs mem siginfo
         wstatus status child_sig child_regs];
    repeat match goal with |- _ /\ _ => split end;
    try reflexivity; try (intros Hr; discriminate Hr); auto;
    try (destruct (regs (tracee w)); reflexivity).
  intros _. unfold rdtsc_emulated. cbn [set_eip set_edx set_eax eax edx eip].
  repeat split; apply wrap32_range.
Qed.

(** The footprint at a faulting [rdtsc] and at a faulting [mov]. *)
Lemma try_handle_rdtsc_footprint_witness :
  (exists w',
     try_handle_rdtsc Sample.collab (Sample.stopped Sample.segv_status 1 0)
     = Returns 1 w'
     /\ esp (regs (tracee w')) = esp Sample.regs0
     /\ mem (tracee w') = mem (tracee (Sample.stopped Sample.segv_status 1 0)))
  /\ (exists w',
        try_handle_rdtsc Sample.store (Sample.stopped Sample.segv_status 1 0)
        = Returns 0 w'
        /\ tracee w' = tracee (Sample.stopped Sample.segv_status 1 0)).
Proof.
  split.
  - pose (w' := match try_handle_rdtsc Sample.collab
                        (Sample.stopped Sample.segv_status 1 0) with
                | Returns _ w' => w'
                | _ => Sample.stopped Sample.segv_status 1 0
                end).
    assert (H : try_handle_rdtsc Sample.collab
                  (Sample.stopped Sample.segv_status 1 0) = Returns 1 w')
      by (vm_compute; reflexivity).
    destruct (try_handle_rdtsc_footprint Sample.collab _ _ _ H)
      as (_ & _ & _ & _ & _ & Hmem & _ & _ & Hregs & _).
    exists w'. split; [exact H|]. split; [|exact Hmem].
    apply (f_equal esp) in Hregs. exact Hregs.
  - pose (w' := match try_handle_rdtsc Sample.store
                        (Sample.stopped Sample.segv_status 1 0) with
                | Returns _ w' => w'
                | _ => Sample.stopped Sample.segv_status 1 0
                end).
    assert (H : try_handle_rdtsc Sample.store
                  (Sample.stopped Sample.segv_status 1 0) = Returns 0 w')
      by (vm_compute; reflexivity).
    destruct (try_handle_rdtsc_footprint Sample.store _ _ _ H)
      as (_ & _ & _ & _ & _ & _ & _ & _ & _ & Hzero & _).
    exists w'. split; [exact H|]. apply (Hzero eq_refl).
Defined.

(** X4.  Whenever [try_handle_shared_mmap_access] returns, the context
    keeps its wait status, pending signal and register snapshot, and
    the counters and the host counter are untouched.  Either it
    returns 0 with context and tracee exactly as they were, or SIGSEGV
    was pending at a protected address, the result is one of the two
    mapping tags, the event field holds that very result, and the
    tracee is what [emulate_child_inst] made of it. *)
Theorem try_handle_shared_mmap_access_footprint
    (E : Collab) (w w' : World) (r : Z) :
  try_handle_shared_mmap_access E w = Returns r w' ->
  status (ctx w') = status (ctx w)
  /\ child_sig (ctx w') = child_sig (ctx w)
  /\ child_regs (ctx w') = child_regs (ctx w)
  /\ hpc w' = hpc w
  /\ tsc_reads w' = tsc_reads w
  /\ ((r = 0 /\ ctx w' = ctx w /\ tracee w' = tracee w)
      \/ (signal_pending E (status (ctx w)) = SIGSEGV
          /\ is_protected_map E (ctx w) (si_addr (siginfo (tracee w))) = true
          /\ (r = SIG_SEGV_MMAP_WRITE E \/ r = SIG_SEGV_MMAP_READ E)
          /\ event (ctx w') = r
          /\ tracee w' = emulate_child_inst E (ctx w') (tracee w))).
Proof.
  intros H.
  destruct (Z.eq_dec (signal_pending E (status (ctx w))) SIGTRAP) as [Ht|Ht].
  { rewrite try_handle_shared_mmap_access_sigtrap in H by exact Ht.
    discriminate. }
  destruct (Z.eq_dec (signal_pending E (status (ctx w))) SIGSEGV) as [Hs|Hs].
  - destruct (is_protected_map E (ctx w) (si_addr (siginfo (tracee w))))
      eqn:Hp.
    + destruct (is_write_mem_instruction E (tracee w)) as [b L] eqn:Hw.
      rewrite (try_handle_shared_mmap_access_inside E w b L Hs Hp Hw) in H.
      injection H as <- <-.
      cbn [ctx tracee hpc tsc_reads set_event status child_sig child_regs
           event].
      repeat (split; [reflexivity|]). right.
      split; [exact Hs|]. split; [reflexivity|].
      split; [unfold mmap_event_of; destruct b; auto|].
      split; reflexivity.
    + rewrite (try_handle_shared_mmap_access_outside E w Hs Hp) in H.
      injection H as <- <-. cbn [log ctx tracee hpc tsc_reads].
      repeat (split; [reflexivity|]). left. repeat split.
  - rewrite try_handle_shared_mmap_access_not_segv in H by assumption.
    injection H as <- <-.
    repeat (split; [reflexivity|]). left. repeat split.
Qed.

(** The footprint at a store into the protected page. *)
Lemma try_handle_shared_mmap_access_footprint_witness :
  exists r w',
    try_handle_shared_mmap_access Sample.store
      (Sample.stopped Sample.segv_status 1 0x5000) = Returns r w'
    /\ child_sig (ctx w') = 0
    /\ tsc_reads w' = 0%nat
    /\ event (ctx w') = r.
Proof.
  pose (w' := match try_handle_shared_mmap_access Sample.store
                      (Sample.stopped Sample.segv_status 1 0x5000) with
              | Returns _ w' => w'
              | _ => Sample.stopped Sample.segv_status 1 0x5000
              end).
  assert (H : try_handle_shared_mmap_access Sample.store
                (Sample.stopped Sample.segv_status 1 0x5000)
              = Returns (-127) w') by (vm_compute; reflexivity).
  destruct (try_handle_shared_mmap_access_footprint Sample.store _ _ _ H)
    as (_ & Hsig & _ & _ & Htsc & [(Hz & _)|(_ & _ & _ & Hev & _)]).
  - discriminate Hz.
  - exists (-127), w'. repeat split; assumption.
Defined.

(** ** How the [switch] of [handle_signal] composes the handlers *)

(** X5.  The timestamp trap has priority over the mapping interceptor:
    at a SIGSEGV on an [rdtsc] whose fault address lies in a protected
    region, [handle_signal] resolves the stop as [SIG_SEGV_RDTSC]; the
    fault info is never fetched, the protected-region table is never
    consulted, the faulting instruction is never emulated, and the
    tracee's memory is what it was. *)
Theorem rdtsc_has_priority
    (E : Collab) (fuel : nat) (w w1 : World) (inst : string) (L : Z) :
  signal_pending E (status (ctx w)) = SIGSEGV ->
  while_in_wrapper E fuel w = Returns tt w1 ->
  signal_pending E (status (ctx w1)) = SIGSEGV ->
  get_inst E (tracee w1) = (inst, L) ->
  strncmp inst "rdtsc" 5 = 0 ->
  is_protected_map E (ctx w1) (si_addr (siginfo (tracee w1))) = true ->
  exists w' d,
    handle_signal E fuel w = Returns tt w'
    /\ history w' = d ++ history w1
    /\ event (ctx w') = SIG_SEGV_RDTSC E
    /\ child_sig (ctx w') = 0
    /\ ~ In E_getsiginfo d
    /\ (forall a, ~ In (E_is_protected_map a) d)
    /\ ~ In E_emulate_child_inst d
    /\ mem (tracee w') = mem (tracee w1).
Proof.
  intros Hentry Hloop Hs Hi Hc _.
  eexists. eexists. split.
  { rewrite (handle_signal_after_loop E fuel w w1 Hloop), Hentry.
    rewrite handle_signal_switch_sigsegv.
    rewrite (try_handle_rdtsc_hit E w1 inst L Hs Hi Hc). reflexivity. }
  cbn [log set_ctx ctx tracee history set_child_sig set_event event
       child_sig set_regs mem].
  split; [instantiate (1 := [_; _; _; _; _; _; _; _]); reflexivity|].
  split; [reflexivity|]. split; [reflexivity|].
  split; [|split; [|split; [|reflexivity]]].
  - cbn [In]. intuition discriminate.
  - intros a. cbn [In]. intuition discriminate.
  - cbn [In]. intuition discriminate.
Qed.

(** The sample [rdtsc] faulting with its fault address inside the
    protected page. *)
Lemma rdtsc_has_priority_witness :
  exists w',
    handle_signal Sample.collab 0 (Sample.stopped Sample.segv_status 1 0x5000)
    = Returns tt w'
    /\ event (ctx w') = SIG_SEGV_RDTSC Sample.collab
    /\ ~ In E_emulate_child_inst (history w').
Proof.
  destruct (rdtsc_has_priority Sample.collab 0
              (Sample.stopped Sample.segv_status 1 0x5000)
              (Sample.stopped Sample.segv_status 1 0x5000)
              "rdtsc" 2 eq_refl eq_refl eq_refl eq_refl eq_refl eq_refl)
    as (w' & d & Hrun & Hd & Hev & _ & _ & _ & Hem & _).
  exists w'. split; [exact Hrun|]. split; [exact Hev|].
  rewrite Hd. cbn [Sample.stopped Sample.stopped_at history].
  rewrite app_nil_r. exact Hem.
Defined.

(** X6.  A SIGSEGV that is neither a trapped [rdtsc] nor an access to a
    protected region is handed to [record_signal] as it is: the two
    handlers have only looked (decoder, fault info, region table), and
    when the counter-reset assertion holds [handle_signal] returns with
    [child_sig] SIGSEGV, the signal's own event tag, and the host
    counter unread. *)
Theorem unclaimed_sigsegv_is_recorded
    (E : Collab) (fuel : nat) (w w1 : World) (inst : string) (L : Z) :
  signal_pending E (status (ctx w)) = SIGSEGV ->
  while_in_wrapper E fuel w = Returns tt w1 ->
  signal_pending E (status (ctx w1)) = SIGSEGV ->
  get_inst E (tracee w1) = (inst, L) ->
  strncmp inst "rdtsc" 5 <> 0 ->
  is_protected_map E (ctx w1) (si_addr (siginfo (tracee w1))) = false ->
  let looked :=
    log (E_is_protected_map (si_addr (siginfo (tracee w1))))
      (log E_getsiginfo (log E_sys_free (log E_get_inst w1))) in
  handle_signal E fuel w = record_signal E SIGSEGV looked
  /\ (hpc_insts (reset_counters E SIGSEGV w1) = 0 ->
      exists w',
        handle_signal E fuel w = Returns tt w'
        /\ child_sig (ctx w') = SIGSEGV
        /\ event (ctx w') = signal_event E SIGSEGV (siginfo (tracee w1))
        /\ tsc_reads w' = tsc_reads w1
        /\ tracee w' =
           fst (singlestep E SIGSEGV (tracee w1)
                  (reset_counters E SIGSEGV w1))).
Proof.
  intros Hentry Hloop Hs Hi Hc Hp looked.
  assert (Hrun : handle_signal E fuel w = record_signal E SIGSEGV looked).
  { rewrite (handle_signal_after_loop E fuel w w1 Hloop), Hentry.
    rewrite handle_signal_switch_sigsegv.
    rewrite (try_handle_rdtsc_miss E w1 inst L Hs Hi Hc).
    change (0 =? 0) with true. cbv iota.
    rewrite (try_handle_shared_mmap_access_outside E
               (log E_sys_free (log E_get_inst w1)) Hs Hp).
    reflexivity. }
  split; [exact Hrun|].
  intros Hz. eexists. split.
  - rewrite Hrun.
    apply (record_signal_positive E SIGSEGV looked); [reflexivity|exact Hz].
  - repeat split.
Qed.

(** A kernel-raised SIGSEGV at a [mov] that touches no protected page. *)
Lemma unclaimed_sigsegv_is_recorded_witness :
  exists w',
    handle_signal Sample.store 0 (Sample.stopped Sample.segv_status 1 0x4fff)
    = Returns tt w'
    /\ child_sig (ctx w') = SIGSEGV
    /\ event (ctx w') = - (11 + 128).
Proof.
  destruct (unclaimed_sigsegv_is_recorded Sample.store 0
              (Sample.stopped Sample.segv_status 1 0x4fff)
              (Sample.stopped Sample.segv_status 1 0x4fff)
              "mov" 3 eq_refl eq_refl eq_refl eq_refl
              ltac:(discriminate) eq_refl)
    as (_ & Hrec).
  destruct (Hrec eq_refl) as (w' & Hrun & Hsig & Hev & _).
  exists w'. split; [exact Hrun|]. split; [exact Hsig|].
  rewrite Hev. reflexivity.
Defined.

(** ** [record_signal]: the failed assertion and the tag *)

(** X7.  When the counter does not read zero right after the reset,
    [record_signal] stops at its assertion: by then the pending signal
    and the event tag are stored in the context and the event has been
    handed to [record_event], but the tracee has not been stepped and
    is what it was. *)
Theorem record_signal_aborts_before_step (E : Collab) (sig : Z) (w : World) :
  0 < sig ->
  hpc_insts (reset_counters E sig w) <> 0 ->
  let ev := signal_event E sig (siginfo (tracee w)) in
  exists w',
    record_signal E sig w = AssertionFailed w'
    /\ tracee w' = tracee w
    /\ child_sig (ctx w') = sig
    /\ event (ctx w') = ev
    /\ status (ctx w') = status (ctx w)
    /\ history w' =
       [E_read_insts; E_reset_hpc (MAX_RECORD_INTERVAL E);
        E_record_event ev (STATE_SYSCALL_ENTRY E); E_store_event ev;
        E_getsiginfo; E_store_child_sig sig] ++ history w.
Proof.
  intros Hpos Hn ev. run.
  assert (Hle : (sig <=? 0) = false) by (apply Z.leb_gt; exact Hpos).
  rewrite Hle.
  cbn [log set_ctx set_hpc ctx tracee hpc tsc_reads history].
  unfold reset_counters, tagged_ctx in Hn. subst ev.
  unfold signal_event in *.
  destruct (is_deterministic_signal (siginfo (tracee w)) =? 0);
    cbn [negb log set_ctx set_hpc ctx tracee hpc tsc_reads history];
    apply Z.eqb_neq in Hn; rewrite Hn; eexists; repeat split.
Qed.

(** A reset that leaves five instructions on the counter. *)
Lemma record_signal_aborts_before_step_witness :
  exists w',
    record_signal Probe.lazy_reset SIGILL (Probe.counting Sample.ill_status 1 0)
    = AssertionFailed w'
    /\ tracee w' = tracee (Probe.counting Sample.ill_status 1 0)
    /\ child_sig (ctx w') = SIGILL.
Proof.
  destruct (record_signal_aborts_before_step Probe.lazy_reset SIGILL
              (Probe.counting Sample.ill_status 1 0)
              eq_refl ltac:(discriminate))
    as (w' & Hrun & Htracee & Hsig & _).
  exists w'. split; [exact Hrun|]. split; [exact Htracee|exact Hsig].
Defined.

Lemma is_deterministic_signal_nonzero (si : siginfo_t) :
  is_deterministic_signal si <> 0 <->
  In (si_signo si) synchronous_fault_class /\ 0 < si_code si.
Proof.
  unfold is_deterministic_signal, synchronous_fault_class. cbn [In].
  destruct (Z.eqb_spec (si_signo si) SIGILL);
  destruct (Z.eqb_spec (si_signo si) SIGTRAP);
  destruct (Z.eqb_spec (si_signo si) SIGBUS);
  destruct (Z.eqb_spec (si_signo si) SIGFPE);
  destruct (Z.eqb_spec (si_signo si) SIGSEGV);
  destruct (Z.eqb_spec (si_signo si) SIGSTKFLT);
  cbn [orb];
  destruct (Z.gtb_spec (si_code si) 0);
  intuition (try lia; try congruence).
Qed.

Lemma lor_range (a b : Z) :
  0 <= a < 2 ^ 31 -> 0 <= b < 2 ^ 31 -> 0 <= Z.lor a b < 2 ^ 31.
Proof.
  intros Ha Hb.
  assert (H0 : 0 <= Z.lor a b) by (apply Z.lor_nonneg; lia).
  split; [exact H0|].
  destruct (Z.eq_dec (Z.lor a b) 0) as [Hz|Hz]; [rewrite Hz; lia|].
  apply Z.log2_lt_pow2; [lia|].
  rewrite Z.log2_lor by lia.
  apply Z.max_lub_lt.
  - destruct (Z.eq_dec a 0) as [->|]; [cbn; lia|].
    apply Z.log2_lt_pow2; lia.
  - destruct (Z.eq_dec b 0) as [->|]; [cbn; lia|].
    apply Z.log2_lt_pow2; lia.
Qed.

Lemma lor_adds_missing_bits (a b : Z) :
  Z.land a b = 0 -> b <> 0 -> Z.lor a b <> a.
Proof.
  intros Hl Hb Heq. apply Hb.
  assert (H : Z.land (Z.lor a b) b = b).
  { rewrite Z.land_lor_distr_l, Hl, Z.land_diag. apply Z.lor_0_l. }
  rewrite Heq, Hl in H. symmetry. exact H.
Qed.

(** X8.  The tag [record_signal] stores carries the verdict of
    [is_deterministic_signal] on the kernel's fault info -- on its
    [si_signo], not on the signal number being recorded: for a signal
    number and a [DET_SIGNAL_BIT] that fit a positive [int], the event
    is [-(sig | DET_SIGNAL_BIT)] when the fault info is of the
    synchronous class with a positive origin code and [-sig]
    otherwise; it is negative either way; and when the signal number
    has none of the bits of a nonzero [DET_SIGNAL_BIT], the event alone
    tells the two cases apart. *)
Theorem record_signal_tag (E : Collab) (sig : Z) (w : World) :
  0 < sig < 2 ^ 31 ->
  0 <= DET_SIGNAL_BIT E < 2 ^ 31 ->
  hpc_insts (reset_counters E sig w) = 0 ->
  let si := siginfo (tracee w) in
  let synchronous :=
    In (si_signo si) synchronous_fault_class /\ 0 < si_code si in
  exists w',
    record_signal E sig w = Returns tt w'
    /\ (synchronous -> event (ctx w') = - Z.lor sig (DET_SIGNAL_BIT E))
    /\ (~ synchronous -> event (ctx w') = - sig)
    /\ event (ctx w') < 0
    /\ (Z.land sig (DET_SIGNAL_BIT E) = 0 -> DET_SIGNAL_BIT E <> 0 ->
        (event (ctx w') = - sig <-> ~ synchronous)).
Proof.
  intros Hsig Hdet Hz si synchronous.
  pose proof (lor_range sig (DET_SIGNAL_BIT E) ltac:(lia) Hdet) as Hlor.
  assert (Hnz : Z.lor sig (DET_SIGNAL_BIT E) <> 0).
  { intros H0. apply Z.lor_eq_0_iff in H0. lia. }
  eexists. split;
    [apply (record_signal_positive E sig w ltac:(lia) Hz)|].
  cbn [ctx set_status tagged_ctx set_event set_child_sig event].
  unfold signal_event. fold si.
  pose proof (is_deterministic_signal_nonzero si) as Hiff.
  fold synchronous in Hiff.
  destruct (Z.eqb_spec (is_deterministic_signal si) 0) as [Hd|Hd].
  - assert (Hns : ~ synchronous) by (intros Hs; apply Hiff in Hs; lia).
    rewrite wrap32_small by lia.
    repeat split; try tauto; lia.
  - assert (Hs : synchronous) by (apply Hiff; exact Hd).
    rewrite wrap32_small by lia.
    split; [reflexivity|]. split; [tauto|]. split; [lia|].
    intros Hl Hb. split; [|tauto].
    intros Heq. exfalso.
    apply (lor_adds_missing_bits sig (DET_SIGNAL_BIT E) Hl Hb). lia.
Qed.

(** A kernel-raised SIGILL gets [-(4 | 0x80)]; a SIGILL sent by another
    process gets [-4]. *)
Lemma record_signal_tag_witness :
  (exists w',
     record_signal Sample.collab SIGILL (Sample.stopped Sample.ill_status 1 0)
     = Returns tt w' /\ event (ctx w') = -132)
  /\ (exists w',
        record_signal Sample.collab SIGILL
          (Sample.stopped Sample.ill_status 0 0)
        = Returns tt w' /\ event (ctx w') = -4).
Proof.
  split.
  - destruct (record_signal_tag Sample.collab SIGILL
                (Sample.stopped Sample.ill_status 1 0)
                ltac:(cbv; split; [reflexivity|reflexivity])
                ltac:(cbv; split; [discriminate|reflexivity])
                eq_refl)
      as (w' & Hrun & Hsync & _).
    exists w'. split; [exact Hrun|].
    apply Hsync. cbn. split; [tauto|lia].
  - destruct (record_signal_tag Sample.collab SIGILL
                (Sample.stopped Sample.ill_status 0 0)
                ltac:(cbv; split; [reflexivity|reflexivity])
                ltac:(cbv; split; [discriminate|reflexivity])
                eq_refl)
      as (w' & Hrun & _ & Hasync & _).
    exists w'. split; [exact Hrun|].
    apply Hasync. cbn. intros (_ & Hcode). lia.
Defined.

(** ** The loop of [handle_signal] and the signal latched before it *)

(** X9.  When the loop of [handle_signal] ends, the instruction pointer
    of the context's snapshot is outside wrapper code, and the event,
    the pending signal and the host counter are what they were.  If
    the loop did not run, nothing changed at all; if it ran, the
    context's register snapshot is the tracee's register file and its
    wait status is the one the tracee last reported. *)
Theorem loop_refreshes_snapshot (E : Collab) (fuel : nat) (w w' : World) :
  while_in_wrapper E fuel w = Returns tt w' ->
  in_wrapper E w' = false
  /\ event (ctx w') = event (ctx w)
  /\ child_sig (ctx w') = child_sig (ctx w)
  /\ tsc_reads w' = tsc_reads w
  /\ (in_wrapper E w = false -> w' = w)
  /\ (in_wrapper E w = true ->
      child_regs (ctx w') = regs (tracee w')
      /\ status (ctx w') = wstatus (tracee w')).
Proof.
  intros H. apply while_in_wrapper_returns in H.
  destruct H as (n & _ & -> & Hout & Hin).
  destruct (outputs_delayed E n w) as (He & Hc & Ht).
  repeat (split; [assumption|]).
  split.
  - intros Hw. destruct n as [|n]; [reflexivity|].
    pose proof (Hin 0%nat ltac:(lia)) as H0.
    cbn [Nat.iter nat_rect] in H0. rewrite H0 in Hw. discriminate.
  - intros Hw. destruct n as [|n].
    + cbn [Nat.iter nat_rect] in Hout. rewrite Hout in Hw. discriminate.
    + cbn [Nat.iter nat_rect]. split; reflexivity.
Qed.

(** Three bytes of wrapper code: the snapshot follows the tracee. *)
Lemma loop_refreshes_snapshot_witness :
  exists w',
    while_in_wrapper Sample.wrapped 3 (Sample.stopped Sample.ill_status 1 0)
    = Returns tt w'
    /\ eip (child_regs (ctx w')) = eip Sample.regs0 + 3
    /\ child_regs (ctx w') = regs (tracee w').
Proof.
  pose (w' := Nat.iter 3 (delayed Sample.wrapped)
                (Sample.stopped Sample.ill_status 1 0)).
  assert (H : while_in_wrapper Sample.wrapped 3
                (Sample.stopped Sample.ill_status 1 0) = Returns tt w')
    by (vm_compute; reflexivity).
  destruct (loop_refreshes_snapshot Sample.wrapped 3 _ _ H)
    as (_ & _ & _ & _ & _ & Hran).
  destruct (Hran eq_refl) as (Hregs & _).
  exists w'. split; [exact H|]. split; [vm_compute; reflexivity|exact Hregs].
Defined.

(** X10.  [handle_signal] dispatches on the signal it read before its
    loop, while the two handlers read the wait status again.  With
    SIGSEGV latched at entry: if the loop has left a SIGTRAP status in
    the context, the assertion of [try_handle_rdtsc] fails and
    [handle_signal] stops there; if it has left any other status that
    is not SIGSEGV, both handlers decline without looking at the tracee
    and SIGSEGV goes to [record_signal]. *)
Theorem latched_sigsegv_after_loop
    (E : Collab) (fuel : nat) (w w1 : World) :
  signal_pending E (status (ctx w)) = SIGSEGV ->
  while_in_wrapper E fuel w = Returns tt w1 ->
  (signal_pending E (status (ctx w1)) = SIGTRAP ->
   handle_signal E fuel w = AssertionFailed w1)
  /\ (signal_pending E (status (ctx w1)) <> SIGTRAP ->
      signal_pending E (status (ctx w1)) <> SIGSEGV ->
      handle_signal E fuel w = record_signal E SIGSEGV w1).
Proof.
  intros Hentry Hloop.
  rewrite (handle_signal_after_loop E fuel w w1 Hloop), Hentry.
  rewrite handle_signal_switch_sigsegv.
  split.
  - intros Ht. rewrite try_handle_rdtsc_sigtrap by exact Ht. reflexivity.
  - intros Ht Hs.
    rewrite try_handle_rdtsc_not_segv by assumption.
    change (0 =? 0) with true. cbv iota.
    rewrite try_handle_shared_mmap_access_not_segv by assumption.
    reflexivity.
Qed.

(** A SIGSEGV in wrapper code whose single steps report SIGTRAP, and
    one whose single steps report a stop without a signal. *)
Lemma latched_sigsegv_after_loop_witness :
  handle_signal (Probe.stepping_to Sample.trap_status) 3
    (Sample.stopped Sample.segv_status 1 0)
  = AssertionFailed
      (Nat.iter 3 (delayed (Probe.stepping_to Sample.trap_status))
         (Sample.stopped Sample.segv_status 1 0))
  /\ handle_signal (Probe.stepping_to Sample.no_signal_status) 3
       (Sample.stopped Sample.segv_status 1 0)
     = record_signal (Probe.stepping_to Sample.no_signal_status) SIGSEGV
         (Nat.iter 3 (delayed (Probe.stepping_to Sample.no_signal_status))
            (Sample.stopped Sample.segv_status 1 0)).
Proof.
  split.
  - apply (proj1 (latched_sigsegv_after_loop
                    (Probe.stepping_to Sample.trap_status) 3
                    (Sample.stopped Sample.segv_status 1 0) _
                    eq_refl ltac:(vm_compute; reflexivity))).
    vm_compute. reflexivity.
  - apply (proj2 (latched_sigsegv_after_loop
                    (Probe.stepping_to Sample.no_signal_status) 3
                    (Sample.stopped Sample.segv_status 1 0) _
                    eq_refl ltac:(vm_compute; reflexivity))).
    + vm_compute. discriminate.
    + vm_compute. discriminate.
Defined.

Lemma while_in_wrapper_never_asserts (E : Collab) (fuel : nat) :
  forall w w' : World, while_in_wrapper E fuel w <> AssertionFailed w'.
Proof.
  induction fuel as [|fuel IH]; intros w w'.
  - destruct (in_wrapper E w) eqn:Hw.
    + rewrite while_in_wrapper_no_fuel by exact Hw. discriminate.
    + rewrite while_in_wrapper_outside by exact Hw. discriminate.
  - destruct (in_wrapper E w) eqn:Hw.
    + rewrite while_in_wrapper_inside by exact Hw. apply IH.
    + rewrite while_in_wrapper_outside by exact Hw. discriminate.
Qed.

(** ** One resolution per stop *)

Section Resolution.

Variable E : Collab.

Lemma marked_refl (w : World) : marked w w [].
Proof. exists []. split; reflexivity. Qed.

Lemma marked_trans (w1 w2 w3 : World) (m1 m2 : list effect) :
  marked w1 w2 m1 -> marked w2 w3 m2 -> marked w1 w3 (m2 ++ m1).
Proof.
  intros (d1 & H1 & M1) (d2 & H2 & M2).
  exists (d2 ++ d1). split.
  - rewrite H2, H1. apply app_assoc.
  - unfold marks in *. rewrite filter_app, M1, M2. reflexivity.
Qed.

Lemma marked_after_nil (w1 w2 w3 : World) (m : list effect) :
  marked w1 w2 [] -> marked w2 w3 m -> marked w1 w3 m.
Proof.
  intros H1 H2. rewrite <- (app_nil_r m). exact (marked_trans _ _ _ _ _ H1 H2).
Qed.

Lemma marked_before_nil (w1 w2 w3 : World) (m : list effect) :
  marked w1 w2 m -> marked w2 w3 [] -> marked w1 w3 m.
Proof.
  intros H1 H2. exact (marked_trans _ _ _ _ _ H1 H2).
Qed.

Lemma marked_stores (w : World) (v : Z) :
  marked w
    (log (E_store_child_sig 0)
       (set_ctx (set_child_sig 0 (set_event v (ctx w)))
          (log (E_store_event v) w)))
    [].
Proof.
  exists [E_store_child_sig 0; E_store_event v]. split; reflexivity.
Qed.

Lemma marks_delay_effects (n : nat) : marks (delay_effects n) = [].
Proof.
  unfold delay_effects. induction n as [|n IH]; [reflexivity|].
  cbn [repeat List.concat app]. exact IH.
Qed.

Lemma while_in_wrapper_marked (fuel : nat) (w w' : World) :
  while_in_wrapper E fuel w = Returns tt w' -> marked w w' [].
Proof.
  intros H. apply while_in_wrapper_returns in H.
  destruct H as (n & _ & -> & _ & _).
  exists (delay_effects n). split.
  - apply history_delayed.
  - apply marks_delay_effects.
Qed.

Lemma try_handle_rdtsc_marked (w w' : World) (r : Z) :
  try_handle_rdtsc E w = Returns r w' ->
  (r = 0 /\ marked w w' [] /\ ctx w' = ctx w)
  \/ (r = 1 /\ marked w w' [E_rdtsc]).
Proof.
  intros H.
  destruct (Z.eq_dec (signal_pending E (status (ctx w))) SIGTRAP) as [Ht|Ht].
  { rewrite try_handle_rdtsc_sigtrap in H by exact Ht. discriminate. }
  destruct (Z.eq_dec (signal_pending E (status (ctx w))) SIGSEGV) as [Hs|Hs].
  - destruct (get_inst E (tracee w)) as [inst L] eqn:Hi.
    destruct (Z.eq_dec (strncmp inst "rdtsc" 5) 0) as [Hc|Hc].
    + rewrite (try_handle_rdtsc_hit E w inst L Hs Hi Hc) in H.
      injection H as <- <-. right. split; [reflexivity|].
      eexists [_; _; _; _; _; _]. split; reflexivity.
    + rewrite (try_handle_rdtsc_miss E w inst L Hs Hi Hc) in H.
      injection H as <- <-. left. repeat split.
      exists [E_sys_free; E_get_inst]. split; reflexivity.
  - rewrite try_handle_rdtsc_not_segv in H by assumption.
    injection H as <- <-. left. repeat split. apply marked_refl.
Qed.

Lemma try_handle_shared_mmap_access_marked (w w' : World) (r : Z) :
  try_handle_shared_mmap_access E w = Returns r w' ->
  (r = 0 /\ marked w w' [] /\ ctx w' = ctx w)
  \/ (marked w w' [E_emulate_child_inst]
      /\ (r = SIG_SEGV_MMAP_WRITE E \/ r = SIG_SEGV_MMAP_READ E)).
Proof.
  intros H.
  destruct (Z.eq_dec (signal_pending E (status (ctx w))) SIGTRAP) as [Ht|Ht].
  { rewrite try_handle_shared_mmap_access_sigtrap in H by exact Ht.
    discriminate. }
  destruct (Z.eq_dec (signal_pending E (status (ctx w))) SIGSEGV) as [Hs|Hs].
  - destruct (is_protected_map E (ctx w) (si_addr (siginfo (tracee w))))
      eqn:Hp.
    + destruct (is_write_mem_instruction E (tracee w)) as [b L] eqn:Hw.
      rewrite (try_handle_shared_mmap_access_inside E w b L Hs Hp Hw) in H.
      injection H as <- <-. right. split.
      * eexists [_; _; _; _; _]. split; reflexivity.
      * unfold mmap_event_of. destruct b; auto.
    + rewrite (try_handle_shared_mmap_access_outside E w Hs Hp) in H.
      injection H as <- <-. left. repeat split.
      eexists [_; _]. split; reflexivity.
  - rewrite try_handle_shared_mmap_access_not_segv in H by assumption.
    injection H as <- <-. left. repeat split. apply marked_refl.
Qed.

Lemma record_signal_marked (sig : Z) (w w' : World) :
  0 < sig ->
  record_signal E sig w = Returns tt w' ->
  marked w w' [E_record_event (signal_event E sig (siginfo (tracee w)))
                              (STATE_SYSCALL_ENTRY E)]
  /\ event (ctx w') = signal_event E sig (siginfo (tracee w))
  /\ child_sig (ctx w') = sig.
Proof.
  intros Hpos H.
  destruct (Z.eq_dec (hpc_insts (reset_counters E sig w)) 0) as [Hz|Hz].
  - rewrite (record_signal_positive E sig w Hpos Hz) in H.
    injection H as <-. repeat split.
    eexists [_; _; _; _; _; _; _; _; _; _; _]. split; reflexivity.
  - destruct (record_signal_assert_fails E sig w Hpos Hz) as (w2 & Hf).
    rewrite Hf in H. discriminate.
Qed.

End Resolution.

(** X12.  Whenever [handle_signal] returns it has resolved the stop in
    exactly one of four ways, and has performed the resolving action at
    most once and no other: nothing but the loop (no signal pending, or
    SIGIO past the budget, tagged [USR_SCHED]); one sample of the host
    counter (SIGSEGV, tagged [SIG_SEGV_RDTSC]); one emulated
    instruction (SIGSEGV, tagged with a mapping tag); or one logged
    signal event (a positive signal, kept in [child_sig]).  The host
    counter is never read and no instruction is ever emulated on a path
    that records a signal.  The two mapping tags are taken nonzero. *)
Theorem one_resolution_per_stop (E : Collab) (fuel : nat) (w w' : World) :
  SIG_SEGV_MMAP_READ E <> 0 ->
  SIG_SEGV_MMAP_WRITE E <> 0 ->
  handle_signal E fuel w = Returns tt w' ->
  let sig := signal_pending E (status (ctx w)) in
  (marked w w' []
   /\ ((sig <= 0 /\ event (ctx w') = event (ctx w)
        /\ child_sig (ctx w') = child_sig (ctx w))
       \/ (sig = SIGIO /\ event (ctx w') = USR_SCHED E
           /\ child_sig (ctx w') = 0)))
  \/ (marked w w' [E_rdtsc] /\ sig = SIGSEGV
      /\ event (ctx w') = SIG_SEGV_RDTSC E /\ child_sig (ctx w') = 0)
  \/ (marked w w' [E_emulate_child_inst] /\ sig = SIGSEGV
      /\ (event (ctx w') = SIG_SEGV_MMAP_WRITE E
          \/ event (ctx w') = SIG_SEGV_MMAP_READ E)
      /\ child_sig (ctx w') = 0)
  \/ (exists ev,
        marked w w' [E_record_event ev (STATE_SYSCALL_ENTRY E)]
        /\ 0 < sig /\ event (ctx w') = ev /\ child_sig (ctx w') = sig).
Proof.
  intros Hread Hwrite H sig.
  destruct (while_in_wrapper E fuel w) as [[] w1|w1|] eqn:Hloop.
  2: { exfalso. exact (while_in_wrapper_never_asserts E fuel w w1 Hloop). }
  2: { rewrite handle_signal_in_loop in H by exact Hloop. discriminate. }
  rewrite (handle_signal_after_loop E fuel w w1 Hloop) in H. fold sig in H.
  pose proof (while_in_wrapper_marked E fuel w w1 Hloop) as Hm1.
  apply while_in_wrapper_spec in Hloop. destruct Hloop as (_ & He1 & Hc1).
  assert (Hrecord : forall w2,
             marked w1 w2 [] -> 0 < sig ->
             record_signal E sig w2 = Returns tt w' ->
             exists ev,
               marked w w' [E_record_event ev (STATE_SYSCALL_ENTRY E)]
               /\ 0 < sig /\ event (ctx w') = ev /\ child_sig (ctx w') = sig).
  { intros w2 Hm2 Hpos Hrec.
    apply record_signal_marked in Hrec; [|exact Hpos].
    destruct Hrec as (Hm3 & He3 & Hc3).
    eexists. split; [|split; [exact Hpos|split; [exact He3|exact Hc3]]].
    apply (marked_after_nil w w2 w'); [|exact Hm3].
    apply (marked_after_nil w w1 w2); assumption. }
  destruct (Z.eq_dec sig SIGSEGV) as [Hs|Hs].
  - rewrite Hs in H. rewrite handle_signal_switch_sigsegv in H.
    destruct (try_handle_rdtsc E w1) as [handled w2|w2|] eqn:Hr;
      try discriminate.
    apply try_handle_rdtsc_marked in Hr.
    destruct Hr as [(-> & Hm2 & Hctx2)|(-> & Hm2)].
    + change (0 =? 0) with true in H. cbv iota in H.
      destruct (try_handle_shared_mmap_access E w2) as [m w3|w3|] eqn:Hmm;
        try discriminate.
      apply try_handle_shared_mmap_access_marked in Hmm.
      destruct Hmm as [(-> & Hm3 & Hctx3)|(Hm3 & Hm)].
      * change (0 =? 0) with true in H. cbv iota in H.
        right. right. right. rewrite <- Hs in H.
        apply (Hrecord w3); [|rewrite Hs; reflexivity|exact H].
        apply (marked_after_nil w1 w2 w3); assumption.
      * assert (Hnz : (m =? 0) = false)
          by (apply Z.eqb_neq; destruct Hm as [->| ->]; assumption).
        rewrite Hnz in H. injection H as <-.
        right. right. left.
        cbn [log set_ctx ctx set_child_sig set_event event child_sig].
        split; [|split; [exact Hs|split; [exact Hm|reflexivity]]].
        apply (marked_after_nil w w1); [exact Hm1|].
        apply (marked_before_nil w1 w3); [|apply marked_stores].
        apply (marked_after_nil w1 w2 w3); assumption.
    + change (1 =? 0) with false in H. cbv iota in H. injection H as <-.
      right. left.
      cbn [log set_ctx ctx set_child_sig set_event event child_sig].
      split; [|split; [exact Hs|split; reflexivity]].
      apply (marked_after_nil w w1); [exact Hm1|].
      apply (marked_before_nil w1 w2); [exact Hm2|apply marked_stores].
  - destruct (Z.eq_dec sig SIGIO) as [Hi|Hi].
    + rewrite Hi in H. rewrite handle_signal_switch_sigio in H.
      destruct (hpc_rbc (hpc w1) >=? MAX_RECORD_INTERVAL E).
      * injection H as <-. left.
        cbn [ctx set_child_sig set_event event child_sig].
        split; [|right; repeat split; exact Hi].
        apply (marked_after_nil w w1); [exact Hm1|].
        eexists [_; _; _]. split; reflexivity.
      * right. right. right. rewrite <- Hi in H.
        apply (Hrecord (log E_read_rbc w1));
          [|rewrite Hi; reflexivity|exact H].
        exists [E_read_rbc]. split; reflexivity.
    + rewrite handle_signal_switch_other in H by assumption.
      destruct (Z.leb_spec sig 0) as [Hle|Hpos].
      * rewrite record_signal_nonpositive in H by exact Hle.
        injection H as <-. left. split; [exact Hm1|]. left. auto.
      * right. right. right.
        apply (Hrecord w1); [apply marked_refl|exact Hpos|exact H].
Qed.

(** The four resolutions on the sample configurations: a stop without a
    signal, a trapped [rdtsc], a store into the protected page, and a
    kernel-raised SIGILL. *)
Lemma one_resolution_per_stop_witness :
  marked (Sample.stopped Sample.no_signal_status 0 0)
    (Sample.outcome Sample.collab 0 (Sample.stopped Sample.no_signal_status 0 0))
    []
  /\ marked (Sample.stopped Sample.segv_status 1 0)
       (Sample.outcome Sample.collab 0 (Sample.stopped Sample.segv_status 1 0))
       [E_rdtsc]
  /\ marked (Sample.stopped Sample.segv_status 1 0x5000)
       (Sample.outcome Sample.store 0
          (Sample.stopped Sample.segv_status 1 0x5000))
       [E_emulate_child_inst]
  /\ marked (Sample.stopped Sample.ill_status 1 0)
       (Sample.outcome Sample.collab 0 (Sample.stopped Sample.ill_status 1 0))
       [E_record_event (-132) 0].
Proof.
  split; [|split; [|split]].
  - destruct (one_resolution_per_stop Sample.collab 0
                (Sample.stopped Sample.no_signal_status 0 0)
                (Sample.outcome Sample.collab 0
                   (Sample.stopped Sample.no_signal_status 0 0))
                ltac:(discriminate) ltac:(discriminate)
                ltac:(vm_compute; reflexivity))
      as [(Hm & _)|[(_ & Hs & _)|[(_ & Hs & _)|(ev & _ & Hpos & _)]]].
    + exact Hm.
    + discriminate Hs.
    + discriminate Hs.
    + discriminate Hpos.
  - destruct (one_resolution_per_stop Sample.collab 0
                (Sample.stopped Sample.segv_status 1 0)
                (Sample.outcome Sample.collab 0
                   (Sample.stopped Sample.segv_status 1 0))
                ltac:(discriminate) ltac:(discriminate)
                ltac:(vm_compute; reflexivity))
      as [(_ & [(Hle & _)|(Hs & _)])
         |[(Hm & _)|[(_ & _ & Hev & _)|(ev & _ & _ & _ & Hc)]]].
    + exfalso. apply Hle. reflexivity.
    + discriminate Hs.
    + exact Hm.
    + destruct Hev as [Hev|Hev]; discriminate Hev.
    + discriminate Hc.
  - destruct (one_resolution_per_stop Sample.store 0
                (Sample.stopped Sample.segv_status 1 0x5000)
                (Sample.outcome Sample.store 0
                   (Sample.stopped Sample.segv_status 1 0x5000))
                ltac:(discriminate) ltac:(discriminate)
                ltac:(vm_compute; reflexivity))
      as [(_ & [(Hle & _)|(Hs & _)])
         |[(_ & _ & Hev & _)|[(Hm & _)|(ev & _ & _ & _ & Hc)]]].
    + exfalso. apply Hle. reflexivity.
    + discriminate Hs.
    + discriminate Hev.
    + exact Hm.
    + discriminate Hc.
  - destruct (one_resolution_per_stop Sample.collab 0
                (Sample.stopped Sample.ill_status 1 0)
                (Sample.outcome Sample.collab 0
                   (Sample.stopped Sample.ill_status 1 0))
                ltac:(discriminate) ltac:(discriminate)
                ltac:(vm_compute; reflexivity))
      as [(_ & [(Hle & _)|(Hs & _)])
         |[(_ & Hs & _)|[(_ & Hs & _)|(ev & Hm & _ & Hev & _)]]].
    + exfalso. apply Hle. reflexivity.
    + discriminate Hs.
    + discriminate Hs.
    + discriminate Hs.
    + rewrite <- Hev in Hm. exact Hm.
Defined.
